(** * solosync-pwa: the authenticated API client of src/services/api.js

    A shallow embedding of the axios client facade: the request interceptor
    that attaches the access token, the response interceptor that runs the
    single-flight token refresh, and the error normalisation of the session
    functions.  The asynchronous handler is split at its only [await]; the
    JavaScript event loop is an explicit step function over a [world]. *)

From Stdlib Require Import ZArith String Ascii List Bool Lia DecimalString.
From stdpp Require Import base option list gmap strings.

Local Open Scope string_scope.
Local Open Scope list_scope.

(** ** JavaScript values that flow through the client *)

Module JS.

(** [String.prototype.endsWith]: the receiver ends with the search string. *)
Definition endsWith (s search : string) : bool :=
  if Nat.leb (String.length search) (String.length s)
  then String.eqb
         (substring (String.length s - String.length search)
                    (String.length search) s)
         search
  else false.

(** A value obtained from a response body: axios parses JSON and falls back
    to the raw text ([JStr]).  A number is carried as the text that
    JavaScript prints for it ([7], [-3], [0.5], [1e+21]; zero, of either sign,
    is [0]): printing a number and testing it for zero is all this module
    does with one.  An object is its list of own properties in enumeration
    order. *)
#[warnings="-register-all"]
Inductive json : Type :=
| JNull
| JBool (b : bool)
| JNum (shown : string)
| JStr (s : string)
| JArr (items : list json)
| JObj (fields : list (string * json)).

(** A JavaScript value as the code sees one: [None] is [undefined]. *)
Definition value : Type := option json.

(** ToBoolean, the test of [if (x)], [!x] and [x || y]. *)
Definition truthy_json (j : json) : bool :=
  match j with
  | JNull => false
  | JBool b => b
  | JNum shown => negb (String.eqb shown "0" || String.eqb shown "NaN")
  | JStr s => negb (String.eqb s EmptyString)
  | JArr _ | JObj _ => true
  end.

Definition truthy (v : value) : bool :=
  match v with
  | None => false
  | Some j => truthy_json j
  end.

(** [localStorage.getItem] yields a string or [null]. *)
Definition truthy_item (v : option string) : bool :=
  match v with
  | None => false
  | Some s => negb (String.eqb s EmptyString)
  end.

(** [a || b] *)
Definition or_else (a b : value) : value := if truthy a then a else b.

(** [typeof x === 'object'] ([null] included, as in JavaScript). *)
Definition typeof_object (v : value) : bool :=
  match v with
  | Some JNull | Some (JArr _) | Some (JObj _) => true
  | _ => false
  end.

Fixpoint assoc (k : string) (fields : list (string * json)) : value :=
  match fields with
  | [] => None
  | (k', v) :: rest => if String.eqb k k' then Some v else assoc k rest
  end.

(** Property read [j.k] on a non-nullish value: only objects carry the
    properties read here ([detail], [message], [access]); the keys of an
    object are distinct. *)
Definition prop (k : string) (j : json) : value :=
  match j with
  | JObj fields => assoc k fields
  | _ => None
  end.

(** Optional chaining [v?.k]. *)
Definition opt_prop (k : string) (v : value) : value :=
  match v with
  | None | Some JNull => None
  | Some j => prop k j
  end.

(** The decimal text of an integer, as JavaScript prints the status of a
    response (an unsigned 16-bit number) and an integer id. *)
Definition string_of_Z (n : Z) : string :=
  NilZero.string_of_int (Z.to_int n).

Fixpoint join (sep : string) (parts : list string) : string :=
  match parts with
  | [] => EmptyString
  | [p] => p
  | p :: rest => p +:+ sep +:+ join sep rest
  end.

(** ToString on a parsed value, as applied by template literals, string
    concatenation, [new Error(v)] and [localStorage.setItem]. *)
Fixpoint ToString_json (j : json) : string :=
  match j with
  | JNull => "null"
  | JBool true => "true"
  | JBool false => "false"
  | JNum shown => shown
  | JStr s => s
  | JArr items =>
      join ","
        (List.map (fun x => match x with
                            | JNull => EmptyString
                            | _ => ToString_json x
                            end) items)
  | JObj _ => "[object Object]"
  end.

Definition ToString (v : value) : string :=
  match v with
  | None => "undefined"
  | Some j => ToString_json j
  end.

(** The quoting of [JSON.stringify] for one code unit. *)
Definition hex_digit (n : nat) : ascii :=
  match n with
  | 0 => "0" | 1 => "1" | 2 => "2" | 3 => "3" | 4 => "4" | 5 => "5"
  | 6 => "6" | 7 => "7" | 8 => "8" | 9 => "9" | 10 => "a" | 11 => "b"
  | 12 => "c" | 13 => "d" | 14 => "e" | _ => "f"
  end%char.

Definition backslash : string := String (ascii_of_nat 92) EmptyString.

Definition quote_char (c : ascii) : string :=
  let n := nat_of_ascii c in
  if Nat.eqb n 34 then backslash +:+ String c EmptyString
  else if Nat.eqb n 92 then backslash +:+ backslash
  else if Nat.eqb n 8 then backslash +:+ "b"
  else if Nat.eqb n 9 then backslash +:+ "t"
  else if Nat.eqb n 10 then backslash +:+ "n"
  else if Nat.eqb n 12 then backslash +:+ "f"
  else if Nat.eqb n 13 then backslash +:+ "r"
  else if Nat.ltb n 32
       then backslash +:+ "u00"
            +:+ String (hex_digit (n / 16)) (String (hex_digit (n mod 16)) EmptyString)
  else String c EmptyString.

Fixpoint quote_body (s : string) : string :=
  match s with
  | EmptyString => EmptyString
  | String c rest => quote_char c +:+ quote_body rest
  end.

Definition dquote : string := String (ascii_of_nat 34) EmptyString.

Definition quote (s : string) : string := dquote +:+ quote_body s +:+ dquote.

(** [JSON.stringify] on a parsed value. *)
Fixpoint JSON_stringify (j : json) : string :=
  match j with
  | JNull => "null"
  | JBool true => "true"
  | JBool false => "false"
  | JNum shown =>
      if String.eqb shown "Infinity" || String.eqb shown "-Infinity"
         || String.eqb shown "NaN"
      then "null" else shown
  | JStr s => quote s
  | JArr items => "[" +:+ join "," (List.map JSON_stringify items) +:+ "]"
  | JObj fields =>
      "{" +:+ join ","
               (List.map (fun kv => quote (fst kv) +:+ ":" +:+ JSON_stringify (snd kv))
                         fields)
          +:+ "}"
  end.

End JS.

Import JS.

(** ** Data model *)

(** The request descriptor handed to axios ([config], [originalRequest]);
    [body] is the [data] of the request.  Every call of this module gives a
    url. *)
Record request_config : Type := mkConfig {
  url : string;
  method : string;
  headers : gmap string string;
  body : value;
  _retry : bool
}.

Record http_response : Type := mkResponse {
  status : Z;
  data : json
}.

(** An error of axios that carries the descriptor of its request:
    [response] is present when the server answered, [request] when the
    request was sent. *)
Record axios_error : Type := mkAxiosError {
  config : request_config;
  response : option http_response;
  request : bool
}.

(** Values that are thrown or used to reject a promise.  Only an
    [AxiosError] has a [config]: what the request interceptor or axios's
    request transform throws before anything is sent is a [TypeError] or an
    [Error], on which [error.config] is [undefined]. *)
Inductive thrown : Type :=
| AxiosError (e : axios_error)
| TypeError (msg : string)
| Error (message : string) (edata : option json) (estatus : option Z).

(** How a deferred promise of [failedQueue] gets settled. *)
Inductive settlement : Type :=
| Resolved (token : value)
| RejectedWith (err : thrown).

(** An entry [{ resolve, reject }] of [failedQueue]: the two functions of a
    fresh promise whose reaction (lines 65-69) closes over [originalRequest]. *)
Record prom : Type := mkProm {
  prom_id : nat;
  prom_request : request_config
}.

(** What the page does to the outside. *)
Inductive effect : Type :=
| Exchange (target : string) (refresh : string)
| Send (sent : request_config)
| Settled (p : nat) (s : settlement)
| Navigate (href : string).

(** The module variables [isRefreshing] and [failedQueue], the browser's
    [localStorage], the headers of [apiClient.defaults], and the run-time
    state of the page: the handlers suspended at the [await] of line 88 (each
    with its [originalRequest]), the promise reactions scheduled and not yet
    run, the number of promises created so far, and the log of effects. *)
Record world : Type := mkWorld {
  API_BASE_URL : string;
  isRefreshing : bool;
  failedQueue : list prom;
  localStorage : gmap string string;
  defaults_headers : gmap string string;
  awaiting : list request_config;
  jobs : list (prom * settlement);
  next_promise : nat;
  trace : list effect
}.

(** What the promise returned by a handler does. *)
Inductive outcome : Type :=
| Rejects (t : thrown)
| Follows (sent : request_config)
| WaitsInQueue (p : nat)
| WaitsForRefresh.

(** How the awaited refresh exchange settles. *)
Inductive exchange : Type :=
| Fulfilled (refreshResponse : http_response)
| Failed (refreshError : thrown).

Definition REFRESH_TOKEN_ENDPOINT : string := "/api/token/refresh/".

(** ** A state and exception monad for the handlers *)

Inductive completion (A : Type) : Type :=
| Normal (a : A)
| Throw (t : thrown).

Arguments Normal {A} a.
Arguments Throw {A} t.

Definition M (A : Type) : Type := world -> world * completion A.

Definition ret {A} (a : A) : M A := fun w => (w, Normal a).

Definition bind {A B} (m : M A) (k : A -> M B) : M B :=
  fun w =>
    match m w with
    | (w1, Normal a) => k a w1
    | (w1, Throw t) => (w1, Throw t)
    end.

Definition throw {A} (t : thrown) : M A := fun w => (w, Throw t).

Definition get_world : M world := fun w => (w, Normal w).

Definition modify (f : world -> world) : M unit := fun w => (f w, Normal tt).

#[global] Instance M_ret : MRet M := @ret.
#[global] Instance M_bind : MBind M := fun A B k m => bind m k.

(** [try { body } catch (e) { handler e } finally { fin }] *)
Definition try_catch_finally {A} (body : M A) (handler : thrown -> M A) (fin : M unit) : M A :=
  fun w =>
    let '(w1, c1) := body w in
    let '(w2, c2) := match c1 with
                     | Normal a => (w1, Normal a)
                     | Throw t => handler t w1
                     end in
    match fin w2 with
    | (w3, Normal _) => (w3, c2)
    | (w3, Throw t) => (w3, Throw t)
    end.

Fixpoint forEach {A} (f : A -> M unit) (l : list A) : M unit :=
  match l with
  | [] => ret tt
  | x :: rest => f x;; forEach f rest
  end.

(** *** Field updates *)

Definition set_isRefreshing (b : bool) (w : world) : world :=
  mkWorld (API_BASE_URL w) b (failedQueue w) (localStorage w) (defaults_headers w)
          (awaiting w) (jobs w) (next_promise w) (trace w).

Definition set_failedQueue (q : list prom) (w : world) : world :=
  mkWorld (API_BASE_URL w) (isRefreshing w) q (localStorage w) (defaults_headers w)
          (awaiting w) (jobs w) (next_promise w) (trace w).

Definition set_localStorage (ls : gmap string string) (w : world) : world :=
  mkWorld (API_BASE_URL w) (isRefreshing w) (failedQueue w) ls (defaults_headers w)
          (awaiting w) (jobs w) (next_promise w) (trace w).

Definition set_defaults_headers (h : gmap string string) (w : world) : world :=
  mkWorld (API_BASE_URL w) (isRefreshing w) (failedQueue w) (localStorage w) h
          (awaiting w) (jobs w) (next_promise w) (trace w).

Definition set_awaiting (a : list request_config) (w : world) : world :=
  mkWorld (API_BASE_URL w) (isRefreshing w) (failedQueue w) (localStorage w)
          (defaults_headers w) a (jobs w) (next_promise w) (trace w).

Definition set_jobs (j : list (prom * settlement)) (w : world) : world :=
  mkWorld (API_BASE_URL w) (isRefreshing w) (failedQueue w) (localStorage w)
          (defaults_headers w) (awaiting w) j (next_promise w) (trace w).

Definition set_next_promise (n : nat) (w : world) : world :=
  mkWorld (API_BASE_URL w) (isRefreshing w) (failedQueue w) (localStorage w)
          (defaults_headers w) (awaiting w) (jobs w) n (trace w).

Definition set_trace (t : list effect) (w : world) : world :=
  mkWorld (API_BASE_URL w) (isRefreshing w) (failedQueue w) (localStorage w)
          (defaults_headers w) (awaiting w) (jobs w) (next_promise w) t.

Definition set_header (k v : string) (c : request_config) : request_config :=
  mkConfig (url c) (method c) (<[k := v]> (headers c)) (body c) (_retry c).

Definition set_retry (b : bool) (c : request_config) : request_config :=
  mkConfig (url c) (method c) (headers c) (body c) b.

Definition set_config (c : request_config) (e : axios_error) : axios_error :=
  mkAxiosError c (response e) (request e).

(** *** Browser and library primitives *)

Definition emit (e : effect) : M unit :=
  modify (fun w => set_trace (trace w ++ [e]) w).

Definition localStorage_getItem (k : string) : M (option string) :=
  fun w => (w, Normal (localStorage w !! k)).

Definition localStorage_setItem (k v : string) : M unit :=
  modify (fun w => set_localStorage (<[k := v]> (localStorage w)) w).

Definition localStorage_removeItem (k : string) : M unit :=
  modify (fun w => set_localStorage (delete k (localStorage w)) w).

(** [window.location.href = href] *)
Definition location_assign (href : string) : M unit := emit (Navigate href).

(** ToString of what [getItem] returned, for the template literal. *)
Definition ToString_item (v : option string) : string :=
  match v with
  | None => "null"
  | Some s => s
  end.

(** ** The client *)

(** Lines 26-32, the request interceptor: [config] is updated and returned. *)
Definition request_interceptor (config : request_config) : M request_config :=
  token ← localStorage_getItem "accessToken";
  if truthy_item token
  then mret (set_header "Authorization" ("Bearer " +:+ ToString_item token) config)
  else mret config.

(** axios merges the instance defaults under the headers of the call.
    Header names are taken as this module writes them, [Authorization] and
    [Content-Type]. *)
Definition merge_defaults (defaults : gmap string string) (c : request_config)
  : request_config :=
  mkConfig (url c) (method c) (headers c ∪ defaults) (body c) (_retry c).

(** [apiClient(config)]: defaults merged, request interceptor run, request
    handed to the transport.  The result stands for the promise of that
    request. *)
Definition apiClient (c : request_config) : M request_config :=
  w ← get_world;
  sent ← request_interceptor (merge_defaults (defaults_headers w) c);
  emit (Send sent);;
  mret sent.

(** [prom.resolve(token)] and [prom.reject(error)]: the promise is settled
    and its reaction is scheduled as a job. *)
Definition settle (p : prom) (s : settlement) : M unit :=
  emit (Settled (prom_id p) s);;
  modify (fun w => set_jobs (jobs w ++ [(p, s)]) w).

(** The default parameter [token = null] of line 44: an argument that is
    [undefined] is replaced by [null]. *)
Definition default_null (token : value) : value :=
  match token with
  | None => Some JNull
  | Some j => Some j
  end.

(** Lines 44-50. *)
Definition processQueue (error : option thrown) (token : value) : M unit :=
  let token := default_null token in
  w ← get_world;
  forEach (fun p => match error with
                    | Some e => settle p (RejectedWith e)
                    | None => settle p (Resolved token)
                    end) (failedQueue w);;
  modify (set_failedQueue []).

(** Line 58, the trigger condition. *)
Definition status_is_401 (error : axios_error) : bool :=
  match response error with
  | Some r => Z.eqb (status r) 401
  | None => false
  end.

Definition should_refresh (error : axios_error) : bool :=
  status_is_401 error
  && negb (_retry (config error))
  && negb (endsWith (url (config error)) REFRESH_TOKEN_ENDPOINT).

(** Lines 63-64: a fresh promise whose functions are pushed on the queue. *)
Definition new_Promise_push (originalRequest : request_config) : M nat :=
  w ← get_world;
  let p := next_promise w in
  modify (fun w => set_failedQueue (failedQueue w ++ [mkProm p originalRequest])
                     (set_next_promise (S p) w));;
  mret p.

(** Line 88 up to the suspension: the exchange is started on the global
    axios instance and the handler waits for it. *)
Definition axios_post_refresh (originalRequest : request_config) (refreshToken : string)
  : M unit :=
  w ← get_world;
  emit (Exchange (API_BASE_URL w +:+ REFRESH_TOKEN_ENDPOINT) refreshToken);;
  modify (fun w => set_awaiting (awaiting w ++ [originalRequest]) w).

(** Lines 58-90 and 112: the error handler of the response interceptor once
    [originalRequest] is known to be defined, up to its first return or to
    the [await]. *)
Definition onRejected (error : axios_error) : M outcome :=
  let originalRequest := config error in
  if should_refresh error then
    w ← get_world;
    if isRefreshing w then
      p ← new_Promise_push originalRequest;
      mret (WaitsInQueue p)
    else
      let originalRequest := set_retry true originalRequest in
      modify (set_isRefreshing true);;
      refreshToken ← localStorage_getItem "refreshToken";
      if negb (truthy_item refreshToken) then
        modify (set_isRefreshing false);;
        localStorage_removeItem "accessToken";;
        localStorage_removeItem "refreshToken";;
        location_assign "/login";;
        mret (Rejects (AxiosError (set_config originalRequest error)))
      else
        axios_post_refresh originalRequest (ToString_item refreshToken);;
        mret WaitsForRefresh
  else mret (Rejects (AxiosError error)).

(** Lines 54-56, the entry of the error handler: [originalRequest] is
    [error.config], and the log statement of line 56 reads
    [originalRequest.url] before anything is tested, which throws when the
    error has no [config]. *)
Definition handle_response_error (error : thrown) : M outcome :=
  match error with
  | AxiosError e => onRejected e
  | TypeError _ | Error _ _ _ =>
      throw (TypeError "Cannot read properties of undefined (reading 'url')")
  end.

(** The value of [await axios.post(...)] once the exchange has settled. *)
Definition await (x : exchange) : M http_response :=
  match x with
  | Fulfilled r => mret r
  | Failed e => throw e
  end.

(** [refreshResponse.data.access] *)
Definition read_access (d : json) : M value :=
  match d with
  | JNull => throw (TypeError "Cannot read properties of null (reading 'access')")
  | _ => mret (prop "access" d)
  end.

(** Lines 86-110: the handler from the [await] on. *)
Definition onRejected_resume (originalRequest : request_config) (x : exchange)
  : M outcome :=
  try_catch_finally
    (refreshResponse ← await x;
     newAccessToken ← read_access (data refreshResponse);
     localStorage_setItem "accessToken" (ToString newAccessToken);;
     modify (fun w => set_defaults_headers
                        (<["Authorization" := "Bearer " +:+ ToString newAccessToken]>
                           (defaults_headers w)) w);;
     let originalRequest :=
       set_header "Authorization" ("Bearer " +:+ ToString newAccessToken) originalRequest in
     processQueue None newAccessToken;;
     sent ← apiClient originalRequest;
     mret (Follows sent))
    (fun refreshError =>
       processQueue (Some refreshError) (Some JNull);;
       localStorage_removeItem "accessToken";;
       localStorage_removeItem "refreshToken";;
       location_assign "/login";;
       mret (Rejects refreshError))
    (modify (set_isRefreshing false)).

(** Lines 65-69: the reaction of a queued promise. *)
Definition queued_reaction (p : prom) (s : settlement) : M outcome :=
  match s with
  | Resolved token =>
      let originalRequest :=
        set_header "Authorization" ("Bearer " +:+ ToString token) (prom_request p) in
      sent ← apiClient originalRequest;
      mret (Follows sent)
  | RejectedWith err => mret (Rejects err)
  end.

(** The promise of an async function rejects with what its body throws. *)
Definition async_result (r : world * completion outcome) : world * outcome :=
  match r with
  | (w, Normal o) => (w, o)
  | (w, Throw t) => (w, Rejects t)
  end.

(** ** The event loop *)

(** Runs the scheduled reactions in order; none of them schedules another. *)
Fixpoint run_reactions (js : list (prom * settlement)) (w : world)
  : world * list (nat * outcome) :=
  match js with
  | [] => (w, [])
  | (p, s) :: rest =>
      let '(w1, o) := async_result (queued_reaction p s w) in
      let '(w2, os) := run_reactions rest w1 in
      (w2, (prom_id p, o) :: os)
  end.

Definition run_jobs (w : world) : world * list (nat * outcome) :=
  run_reactions (jobs w) (set_jobs [] w).

Inductive event : Type :=
| ResponseError (error : thrown)
| RefreshSettled (i : nat) (x : exchange)
| StorageWrite (key : string) (v : option string).

Definition storage_write (key : string) (v : option string) (w : world) : world :=
  match v with
  | Some s => set_localStorage (<[key := s]> (localStorage w)) w
  | None => set_localStorage (delete key (localStorage w)) w
  end.

(** One turn of the event loop: a handler runs to its return or suspension,
    then the job queue is emptied.  The result is the world and what the
    reactions that ran hand to the callers waiting on queued promises. *)
Definition turn (w : world) (ev : event) : world * list (nat * outcome) :=
  match ev with
  | ResponseError error => run_jobs (fst (async_result (handle_response_error error w)))
  | RefreshSettled i x =>
      match awaiting w !! i with
      | Some originalRequest =>
          let w1 := set_awaiting (delete i (awaiting w)) w in
          run_jobs (fst (async_result (onRejected_resume originalRequest x w1)))
      | None => (w, [])
      end
  | StorageWrite key v => (storage_write key v w, [])
  end.

Definition step (w : world) (ev : event) : world := fst (turn w ev).

Definition run (w : world) (evs : list event) : world := fold_left step evs w.

(** The module as loaded: idle, nothing queued; the default headers are
    axios's own [Accept] and the [Content-Type] given to [axios.create]. *)
Definition initial (base : string) (ls : gmap string string) : world :=
  mkWorld base false [] ls
          {["Accept" := "application/json, text/plain, */*";
            "Content-Type" := "application/json"]}
          [] [] 0 [].

(** ** The session functions *)

(** [error.response] and the truth of [error.request] on any thrown value. *)
Definition response_of (error : thrown) : option http_response :=
  match error with
  | AxiosError e => response e
  | _ => None
  end.

Definition request_of (error : thrown) : bool :=
  match error with
  | AxiosError e => request e
  | _ => false
  end.

Definition api_error_text (r : http_response) : string :=
  "API Error: " +:+ string_of_Z (status r).

(** Lines 137-157, the [catch] of [logSession]: the value it throws. *)
Definition logSession_catch (error : thrown) : thrown :=
  match response_of error with
  | Some r =>
      let d := Some (data r) in
      Error
        (ToString
           (or_else (opt_prop "detail" d)
              (or_else (if truthy d && typeof_object d
                        then Some (JStr (JSON_stringify (data r)))
                        else Some JNull)
                       (Some (JStr (api_error_text r))))))
        (Some (data r)) (Some (status r))
  | None =>
      if request_of error
      then Error "Network Error: Could not connect to server." None None
      else Error "Request setup error." None None
  end.

(** Lines 166-186, the [catch] of [getLoggedSessions]. *)
Definition getLoggedSessions_catch (error : thrown) : thrown :=
  match response_of error with
  | Some r =>
      let d := Some (data r) in
      Error
        (ToString
           (or_else (opt_prop "detail" d)
              (or_else (opt_prop "message" d)
                       (Some (JStr (api_error_text r))))))
        (Some (data r)) (Some (status r))
  | None =>
      if request_of error
      then Error "Network Error: Could not connect to server." None None
      else Error "Request setup error." None None
  end.









(** ** Vocabulary of the statements *)

Definition is_exchange (e : effect) : bool :=
  match e with Exchange _ _ => true | _ => false end.

Definition is_navigate (e : effect) : bool :=
  match e with Navigate _ => true | _ => false end.

Definition is_settled (p : nat) (e : effect) : bool :=
  match e with Settled q _ => Nat.eqb p q | _ => false end.

(** The refresh exchanges started, the navigations made and the number of
    times promise [p] was settled, read off a trace. *)
Definition exchanges (t : list effect) : list effect := List.filter is_exchange t.
Definition navigations (t : list effect) : list effect := List.filter is_navigate t.
Definition settle_count (p : nat) (t : list effect) : nat :=
  List.length (List.filter (is_settled p) t).

(** What the [try] block of the resumed handler makes of the exchange:
    the new token, or the error caught at line 101. *)
Definition refresh_result (x : exchange) : thrown + value :=
  match x with
  | Fulfilled r =>
      match data r with
      | JNull => inl (TypeError "Cannot read properties of null (reading 'access')")
      | d => inr (prop "access" d)
      end
  | Failed e => inl e
  end.

Definition settlement_of (x : exchange) : settlement :=
  match refresh_result x with
  | inl e => RejectedWith e
  | inr token => Resolved (default_null token)
  end.

(** The descriptor that [apiClient c] puts on the wire in world [w]. *)
Definition sent_as (w : world) (c : request_config) : request_config :=
  let merged := merge_defaults (defaults_headers w) c in
  match localStorage w !! "accessToken" with
  | Some token =>
      if String.eqb token EmptyString then merged
      else set_header "Authorization" ("Bearer " +:+ token) merged
  | None => merged
  end.

(** The replay made by the reaction of a queued promise resolved with [token]. *)
Definition replay_of (w : world) (token : value) (p : prom) : request_config :=
  sent_as w (set_header "Authorization" ("Bearer " +:+ ToString token) (prom_request p)).

(** What the reaction of a settled queue entry does in world [w]. *)
Definition reaction_outcome (w : world) (j : prom * settlement) : nat * outcome :=
  (prom_id (fst j),
   match snd j with
   | Resolved token => Follows (replay_of w token (fst j))
   | RejectedWith e => Rejects e
   end).

Definition reaction_effects (w : world) (j : prom * settlement) : list effect :=
  match snd j with
  | Resolved token => [Send (replay_of w token (fst j))]
  | RejectedWith _ => []
  end.

(** The world once lines 94-95 have stored [token] and made it the default
    credential. *)
Definition refreshed (token : value) (w : world) : world :=
  set_defaults_headers
    (<["Authorization" := "Bearer " +:+ ToString token]> (defaults_headers w))
    (set_localStorage (<["accessToken" := ToString token]> (localStorage w)) w).

(** The replay of the triggering request after a refresh that gave [token]. *)
Definition retry_of (w : world) (token : value) (r : request_config) : request_config :=
  sent_as (refreshed token w)
          (set_header "Authorization" ("Bearer " +:+ ToString token) r).


Definition queue_ids (w : world) : list nat := List.map prom_id (failedQueue w).

(** The invariant of the coordinator between two turns of the event loop. *)
Record Inv (w : world) : Prop := mkInv {
  inv_jobs : jobs w = [];
  inv_idle : isRefreshing w = false -> failedQueue w = [] /\ awaiting w = [];
  inv_busy : isRefreshing w = true -> exists r, awaiting w = [r];
  inv_nodup : List.NoDup (queue_ids w);
  inv_fresh : forall p, List.In p (queue_ids w) -> p < next_promise w;
  inv_count : forall p,
      settle_count p (trace w)
      = if Nat.ltb p (next_promise w) && negb (existsb (Nat.eqb p) (queue_ids w))
        then 1 else 0
}.

(** The trigger condition of the coordinator, stated on the error. *)
Definition auth_failure (error : axios_error) : Prop :=
  (exists r, response error = Some r /\ status r = 401%Z)
  /\ _retry (config error) = false
  /\ ~ (exists prefix, url (config error) = prefix +:+ REFRESH_TOKEN_ENDPOINT).

(** ** Sample data *)

Definition reqA : request_config :=
  mkConfig "/api/solo/assigned-routines/" "get" ∅ None false.

Definition reqB : request_config :=
  mkConfig "/api/solo/session-logs/" "post" ∅ (Some (JObj [("routine", JNum "7")])) false.


Definition e401 (c : request_config) : axios_error :=
  mkAxiosError c (Some (mkResponse 401 (JObj [("detail", JStr "Token expired")]))) true.

Definition w_logged_in : world :=
  initial "https://www.squashsync.com"
          {["accessToken" := "T1"; "refreshToken" := "R1"]}.

Definition w_no_refresh : world :=
  initial "https://www.squashsync.com" {["accessToken" := "T1"]}.

Definition token_reply (t : string) : exchange :=
  Fulfilled (mkResponse 200 (JObj [("access", JStr t)])).

Definition refresh_rejected : thrown :=
  AxiosError
    (mkAxiosError
       (mkConfig "https://www.squashsync.com/api/token/refresh/" "post" ∅
                 (Some (JObj [("refresh", JStr "R1")])) false)
       (Some (mkResponse 401 (JObj [("detail", JStr "Token is invalid or expired")])))
       true).

(** The requests sent to [u], in order, read off a trace. *)
Fixpoint sends_to (u : string) (t : list effect) : list request_config :=
  match t with
  | [] => []
  | Send c :: rest => if String.eqb (url c) u then c :: sends_to u rest else sends_to u rest
  | _ :: rest => sends_to u rest
  end.

(** A run in which the request [reqB] is queued behind the refresh triggered
    by [reqA], replayed, and fails with 401 once more. *)
Definition replayB1 : request_config :=
  replay_of (refreshed (Some (JStr "T2")) w_logged_in) (Some (JStr "T2")) (mkProm 0 reqB).

Definition queued_then_failing : list event :=
  [ResponseError (AxiosError (e401 reqA)); ResponseError (AxiosError (e401 reqB));
   RefreshSettled 0 (token_reply "T2");
   ResponseError (AxiosError (e401 replayB1));
   RefreshSettled 0 (token_reply "T3")].

Definition is_object_or_array (d : json) : bool :=
  match d with
  | JArr _ | JObj _ => true
  | _ => false
  end.


(** ** The calls of the module *)

(** The descriptors of [apiClient.get(url)] and [apiClient.post(url, data)]. *)
Definition get_config (u : string) : request_config := mkConfig u "get" ∅ None false.

Definition post_config (u : string) (d : json) : request_config :=
  mkConfig u "post" ∅ (Some d) false.

(** Lines 118-135 and 160-164: the request each function makes. *)
Definition loginUser_request (username password : json) : request_config :=
  post_config "/api/token/" (JObj [("username", username); ("password", password)]).

Definition getAssignedRoutines_request : request_config :=
  get_config "/api/solo/assigned-routines/".

Definition getRoutineDetails_request (routineId : value) : request_config :=
  get_config ("/api/solo/assigned-routines/" +:+ ToString routineId +:+ "/").

Definition logSession_request (sessionData : json) : request_config :=
  post_config "/api/solo/session-logs/" sessionData.

Definition getLoggedSessions_request : request_config :=
  get_config "/api/solo/session-logs/".

(** The last character of a string, and the decimal digits. *)
Fixpoint last_char (s : string) : option ascii :=
  match s with
  | EmptyString => None
  | String c rest =>
      match last_char rest with
      | Some c' => Some c'
      | None => Some c
      end
  end.

Definition is_digit (c : ascii) : bool :=
  let n := nat_of_ascii c in Nat.leb 48 n && Nat.leb n 57.

(** What the coordinator may do to the outside, for a client made with
    base url [base]: exchanges go to the refresh endpoint of [base] with a
    non-empty refresh token, navigations go to the login page. *)
Definition effect_ok (base : string) (e : effect) : Prop :=
  match e with
  | Exchange target refresh =>
      target = base +:+ REFRESH_TOKEN_ENDPOINT /\ refresh <> EmptyString
  | Navigate href => href = "/login"
  | Send _ | Settled _ _ => True
  end.

(** * Properties *)

(** ** Strings *)

Example endsWith_refresh_url :
  endsWith "https://www.squashsync.com/api/token/refresh/" REFRESH_TOKEN_ENDPOINT = true.
Proof. reflexivity. Qed.

Example endsWith_session_logs :
  endsWith "/api/solo/session-logs/" REFRESH_TOKEN_ENDPOINT = false.
Proof. reflexivity. Qed.

Example ToString_of_array :
  ToString (Some (JArr [JNum "1"; JNull; JStr "x"; JArr [JBool true; JNum "-2"]]))
  = "1,,x,true,-2".
Proof. reflexivity. Qed.

Example JSON_stringify_of_object :
  JSON_stringify (JObj [("code", JNum "1e+21"); ("errors", JArr [JStr "a"; JNull])])
  = "{" +:+ dquote +:+ "code" +:+ dquote +:+ ":1e+21," +:+ dquote +:+ "errors" +:+ dquote
        +:+ ":[" +:+ dquote +:+ "a" +:+ dquote +:+ ",null]}".
Proof. reflexivity. Qed.

Example a_401_on_a_session_call_triggers :
  should_refresh (e401 reqB) = true
  /\ should_refresh (e401 (set_retry true reqB)) = false
  /\ should_refresh (mkAxiosError reqB None true) = false
  /\ should_refresh (mkAxiosError reqB (Some (mkResponse 500 JNull)) true) = false.
Proof. repeat split; reflexivity. Qed.


Lemma substring_whole (t : string) : substring 0 (String.length t) t = t.
Proof. induction t as [|c t IH]; simpl; [reflexivity | now rewrite IH]. Qed.

Lemma substring_skip (p t : string) :
  substring (String.length p) (String.length t) (p +:+ t) = t.
Proof. induction p as [|c p IH]; simpl; [apply substring_whole | exact IH]. Qed.

Lemma length_append (p t : string) :
  String.length (p +:+ t) = String.length p + String.length t.
Proof. induction p as [|c p IH]; simpl; [reflexivity | now rewrite IH]. Qed.

Lemma substring_split (s : string) (n : nat) :
  n <= String.length s ->
  s = substring 0 n s +:+ substring n (String.length s - n) s.
Proof.
  revert n. induction s as [|c s IH]; intros [|n] Hn; simpl in *.
  - reflexivity.
  - lia.
  - now rewrite substring_whole.
  - change (String c s = String c (substring 0 n s +:+ substring n (String.length s - n) s)).
    f_equal. apply IH. lia.
Qed.

Lemma endsWith_spec (s search : string) :
  endsWith s search = true <-> exists prefix, s = prefix +:+ search.
Proof.
  unfold endsWith. split.
  - destruct (Nat.leb_spec (String.length search) (String.length s)) as [Hle|Hlt];
      [|discriminate].
    intros Heq. apply String.eqb_eq in Heq.
    exists (substring 0 (String.length s - String.length search) s).
    pose proof (substring_split s (String.length s - String.length search)) as Hs.
    replace (String.length s - (String.length s - String.length search))
      with (String.length search) in Hs by lia.
    rewrite Heq in Hs. apply Hs. lia.
  - intros [p ->]. rewrite length_append.
    destruct (Nat.leb_spec (String.length search) (String.length p + String.length search));
      [|lia].
    replace (String.length p + String.length search - String.length search)
      with (String.length p) by lia.
    rewrite substring_skip. apply String.eqb_refl.
Qed.

Lemma should_refresh_spec (error : axios_error) :
  should_refresh error = true <-> auth_failure error.
Proof.
  unfold should_refresh, auth_failure, status_is_401.
  rewrite !andb_true_iff, !negb_true_iff.
  rewrite <- endsWith_spec.
  split.
  - intros [[H1 H2] H3]. split; [|split; [exact H2|congruence]].
    destruct (response error) as [r|]; [|discriminate].
    exists r. split; [reflexivity|]. now apply Z.eqb_eq.
  - intros [[r [Hr Hs]] [H2 H3]]. rewrite Hr. repeat split.
    + now apply Z.eqb_eq.
    + exact H2.
    + now destruct (endsWith _ _).
Qed.

(** ** The primitives, in closed form *)

Lemma bind_unfold {A B} (m : M A) (k : A -> M B) (w : world) :
  (m ≫= k) w = match m w with
               | (w1, Normal a) => k a w1
               | (w1, Throw t) => (w1, Throw t)
               end.
Proof. reflexivity. Qed.

Lemma get_world_bind {B} (k : world -> M B) (w : world) :
  (get_world ≫= k) w = k w w.
Proof. reflexivity. Qed.

Lemma modify_bind {B} (f : world -> world) (k : unit -> M B) (w : world) :
  (modify f ≫= k) w = k tt (f w).
Proof. reflexivity. Qed.

Lemma getItem_bind {B} (key : string) (k : option string -> M B) (w : world) :
  (localStorage_getItem key ≫= k) w = k (localStorage w !! key) w.
Proof. reflexivity. Qed.

Lemma mret_run {A} (a : A) (w : world) : (mret a : M A) w = (w, Normal a).
Proof. reflexivity. Qed.

Ltac js_run :=
  unfold localStorage_setItem, localStorage_removeItem, location_assign, emit;
  repeat first [ rewrite get_world_bind | rewrite modify_bind
               | rewrite getItem_bind | rewrite mret_run ];
  cbv beta.

Lemma request_interceptor_eq (c : request_config) (w : world) :
  request_interceptor c w
  = (w, Normal match localStorage w !! "accessToken" with
               | Some token =>
                   if String.eqb token EmptyString then c
                   else set_header "Authorization" ("Bearer " +:+ token) c
               | None => c
               end).
Proof.
  unfold request_interceptor, localStorage_getItem. rewrite bind_unfold.
  destruct (localStorage w !! "accessToken") as [token|]; simpl; [|reflexivity].
  now destruct (String.eqb token EmptyString).
Qed.

Lemma apiClient_eq (c : request_config) (w : world) :
  apiClient c w = (set_trace (trace w ++ [Send (sent_as w c)]) w, Normal (sent_as w c)).
Proof.
  unfold apiClient, get_world. rewrite bind_unfold. cbv beta iota.
  rewrite bind_unfold, request_interceptor_eq. cbv beta iota.
  unfold sent_as.
  destruct (localStorage w !! "accessToken") as [token|]; [|reflexivity].
  now destruct (String.eqb token EmptyString).
Qed.

Lemma forEach_settle (s : settlement) (q : list prom) (w : world) :
  forEach (fun p => settle p s) q w
  = (set_jobs (jobs w ++ List.map (fun p => (p, s)) q)
       (set_trace (trace w ++ List.map (fun p => Settled (prom_id p) s) q) w),
     Normal tt).
Proof.
  revert w. induction q as [|p q IH]; intros w.
  - destruct w; simpl. unfold ret, set_jobs, set_trace; simpl. now rewrite !app_nil_r.
  - simpl. rewrite bind_unfold. unfold settle at 1, emit, modify.
    rewrite bind_unfold. cbv beta iota. rewrite IH.
    destruct w; unfold set_jobs, set_trace; simpl.
    now rewrite <- !app_assoc.
Qed.

Lemma processQueue_eq (error : option thrown) (token : value) (w : world) :
  let s := match error with
           | Some e => RejectedWith e
           | None => Resolved (default_null token)
           end in
  processQueue error token w
  = (set_failedQueue []
       (set_jobs (jobs w ++ List.map (fun p => (p, s)) (failedQueue w))
          (set_trace (trace w ++ List.map (fun p => Settled (prom_id p) s) (failedQueue w)) w)),
     Normal tt).
Proof.
  intros s. unfold processQueue, get_world. cbv zeta. rewrite bind_unfold. cbv beta iota.
  rewrite bind_unfold.
  replace (forEach _ (failedQueue w) w) with (forEach (fun p => settle p s) (failedQueue w) w)
    by (subst s; now destruct error).
  rewrite forEach_settle. reflexivity.
Qed.

Lemma sent_as_frame (w w' : world) (c : request_config) :
  localStorage w' = localStorage w ->
  defaults_headers w' = defaults_headers w ->
  sent_as w' c = sent_as w c.
Proof. intros Hl Hd. unfold sent_as. now rewrite Hl, Hd. Qed.

Lemma reaction_effects_frame (w : world) (t : list effect) (j : prom * settlement) :
  reaction_effects (set_trace t w) j = reaction_effects w j.
Proof. reflexivity. Qed.

Lemma reaction_outcome_frame (w : world) (t : list effect) (j : prom * settlement) :
  reaction_outcome (set_trace t w) j = reaction_outcome w j.
Proof. reflexivity. Qed.

Lemma run_reactions_eq (js : list (prom * settlement)) (w : world) :
  run_reactions js w
  = (set_trace (trace w ++ List.flat_map (reaction_effects w) js) w,
     List.map (reaction_outcome w) js).
Proof.
  revert w. induction js as [|[p s] js IH]; intros w.
  - simpl. destruct w; unfold set_trace; simpl. now rewrite app_nil_r.
  - simpl. destruct s as [token|e]; simpl.
    + rewrite bind_unfold, apiClient_eq. simpl. rewrite IH.
      rewrite (flat_map_ext _ _ (reaction_effects_frame w _)).
      rewrite (map_ext _ _ (reaction_outcome_frame w _)).
      destruct w; unfold set_trace; simpl. now rewrite <- app_assoc.
    + rewrite IH. reflexivity.
Qed.

Lemma resume_resolved (r : request_config) (x : exchange) (token : value) (w : world) :
  refresh_result x = inr token ->
  let bearer := "Bearer " +:+ ToString token in
  let ls := <["accessToken" := ToString token]> (localStorage w) in
  let dh := <["Authorization" := bearer]> (defaults_headers w) in
  let sent :=
    sent_as (set_defaults_headers dh (set_localStorage ls w))
            (set_header "Authorization" bearer r) in
  onRejected_resume r x w
  = (mkWorld (API_BASE_URL w) false [] ls dh (awaiting w)
       (jobs w ++ List.map (fun p => (p, Resolved (default_null token))) (failedQueue w))
       (next_promise w)
       (trace w
          ++ List.map (fun p => Settled (prom_id p) (Resolved (default_null token)))
                      (failedQueue w)
          ++ [Send sent]),
     Normal (Follows sent)).
Proof.
  intros Hx bearer ls dh sent.
  unfold onRejected_resume, try_catch_finally.
  destruct x as [resp|e]; simpl in Hx; [|discriminate].
  rewrite bind_unfold. unfold await at 1. simpl.
  rewrite bind_unfold.
  assert (Hr : read_access (data resp) w = (w, Normal token)).
  { unfold read_access. destruct (data resp); try discriminate; now inversion Hx. }
  rewrite Hr. cbv beta iota.
  rewrite bind_unfold. unfold localStorage_setItem at 1, modify at 1. cbv beta iota.
  rewrite bind_unfold. unfold modify at 1. cbv beta iota.
  rewrite bind_unfold, processQueue_eq. cbv beta iota zeta.
  rewrite bind_unfold, apiClient_eq. cbv beta iota.
  unfold modify. simpl.
  rewrite <- app_assoc. reflexivity.
Qed.

Lemma resume_rejected (r : request_config) (x : exchange) (e : thrown) (w : world) :
  refresh_result x = inl e ->
  onRejected_resume r x w
  = (mkWorld (API_BASE_URL w) false []
       (delete "refreshToken" (delete "accessToken" (localStorage w)))
       (defaults_headers w) (awaiting w)
       (jobs w ++ List.map (fun p => (p, RejectedWith e)) (failedQueue w))
       (next_promise w)
       (trace w ++ List.map (fun p => Settled (prom_id p) (RejectedWith e)) (failedQueue w)
          ++ [Navigate "/login"]),
     Normal (Rejects e)).
Proof.
  intros Hx.
  unfold onRejected_resume, try_catch_finally.
  rewrite bind_unfold.
  destruct x as [resp|e']; simpl in Hx.
  - unfold await at 1. simpl. rewrite bind_unfold.
    unfold read_access at 1. destruct (data resp); try discriminate.
    inversion Hx; subst e. unfold throw at 1. cbv beta iota.
    rewrite bind_unfold, processQueue_eq. cbv beta iota zeta.
    unfold localStorage_removeItem, location_assign, emit, modify.
    rewrite !bind_unfold. simpl. rewrite <- app_assoc. reflexivity.
  - inversion Hx; subst e'. unfold await at 1, throw at 1. cbv beta iota.
    rewrite bind_unfold, processQueue_eq. cbv beta iota zeta.
    unfold localStorage_removeItem, location_assign, emit, modify.
    rewrite !bind_unfold. simpl. rewrite <- app_assoc. reflexivity.
Qed.

Lemma resume_cases (x : exchange) :
  (exists e, refresh_result x = inl e) \/ (exists token, refresh_result x = inr token).
Proof. destruct (refresh_result x) as [e|token]; eauto. Qed.

Lemma onRejected_pass (error : axios_error) (w : world) :
  should_refresh error = false ->
  onRejected error w = (w, Normal (Rejects (AxiosError error))).
Proof. intros H. unfold onRejected. now rewrite H. Qed.

Lemma onRejected_queue (error : axios_error) (w : world) :
  should_refresh error = true ->
  isRefreshing w = true ->
  onRejected error w
  = (mkWorld (API_BASE_URL w) true
       (failedQueue w ++ [mkProm (next_promise w) (config error)])
       (localStorage w) (defaults_headers w) (awaiting w) (jobs w)
       (S (next_promise w)) (trace w),
     Normal (WaitsInQueue (next_promise w))).
Proof.
  intros H Hr. unfold onRejected. rewrite H. js_run. rewrite Hr.
  unfold new_Promise_push. rewrite bind_unfold. js_run.
  unfold set_failedQueue, set_next_promise. simpl. now rewrite Hr.
Qed.

Lemma onRejected_logout (error : axios_error) (w : world) :
  should_refresh error = true ->
  isRefreshing w = false ->
  truthy_item (localStorage w !! "refreshToken") = false ->
  onRejected error w
  = (mkWorld (API_BASE_URL w) false (failedQueue w)
       (delete "refreshToken" (delete "accessToken" (localStorage w)))
       (defaults_headers w) (awaiting w) (jobs w) (next_promise w)
       (trace w ++ [Navigate "/login"]),
     Normal (Rejects (AxiosError (set_config (set_retry true (config error)) error)))).
Proof.
  intros H Hr Ht. unfold onRejected. rewrite H. js_run. rewrite Hr. js_run.
  change (localStorage (set_isRefreshing true w)) with (localStorage w).
  rewrite Ht. simpl. js_run. reflexivity.
Qed.

Lemma onRejected_refresh (error : axios_error) (w : world) (refreshToken : string) :
  should_refresh error = true ->
  isRefreshing w = false ->
  localStorage w !! "refreshToken" = Some refreshToken ->
  refreshToken <> EmptyString ->
  onRejected error w
  = (mkWorld (API_BASE_URL w) true (failedQueue w) (localStorage w)
       (defaults_headers w) (awaiting w ++ [set_retry true (config error)])
       (jobs w) (next_promise w)
       (trace w ++ [Exchange (API_BASE_URL w +:+ REFRESH_TOKEN_ENDPOINT) refreshToken]),
     Normal WaitsForRefresh).
Proof.
  intros H Hr Ht Hne. unfold onRejected. rewrite H. js_run. rewrite Hr. js_run.
  change (localStorage (set_isRefreshing true w)) with (localStorage w).
  rewrite Ht. simpl.
  destruct (String.eqb_spec refreshToken EmptyString) as [->|_]; [congruence|].
  simpl. unfold axios_post_refresh. js_run. reflexivity.
Qed.

(** ** The request interceptor *)

(** C9, as the code has it.  The request interceptor never fails and leaves
    the world as it found it; the descriptor it returns has the url, method,
    body, retry marker and every header other than Authorization of the one
    it was given; Authorization is [Bearer <accessToken>] when localStorage
    holds a non-empty access token, and the descriptor is returned as it came
    when the token is absent or is the empty string. *)
Theorem request_interceptor_contract (w : world) (c : request_config) :
  exists c',
    request_interceptor c w = (w, Normal c')
    /\ url c' = url c /\ method c' = method c /\ body c' = body c
    /\ _retry c' = _retry c
    /\ (forall k, k <> "Authorization" -> headers c' !! k = headers c !! k)
    /\ match localStorage w !! "accessToken" with
       | Some token =>
           if String.eqb token EmptyString then c' = c
           else headers c' !! "Authorization" = Some ("Bearer " +:+ token)
       | None => c' = c
       end.
Proof.
  rewrite request_interceptor_eq.
  destruct (localStorage w !! "accessToken") as [token|].
  - destruct (String.eqb token EmptyString).
    + exists c. repeat split; reflexivity.
    + eexists. split; [reflexivity|]. repeat split; simpl.
      * intros k Hk. now apply lookup_insert_ne.
      * apply lookup_insert_eq.
  - exists c. repeat split; reflexivity.
Qed.

(** C9 as stated fails when the stored access token is the empty string: a
    token is present, yet no Authorization header is set. *)
Lemma request_interceptor_empty_token :
  let w := initial "https://www.squashsync.com" {["accessToken" := EmptyString]} in
  exists token,
    localStorage w !! "accessToken" = Some token
    /\ request_interceptor reqA w = (w, Normal reqA)
    /\ headers reqA !! "Authorization" <> Some ("Bearer " +:+ token).
Proof.
  exists EmptyString. split; [reflexivity|]. split; [reflexivity|].
  vm_compute. discriminate.
Qed.

(** ** Interception scope *)

Lemma exchanges_app (t1 t2 : list effect) :
  exchanges (t1 ++ t2) = exchanges t1 ++ exchanges t2.
Proof. unfold exchanges. apply List.filter_app. Qed.

Lemma exchanges_settled (s : settlement) (q : list prom) :
  exchanges (List.map (fun p => Settled (prom_id p) s) q) = [].
Proof. induction q as [|p q IH]; simpl; [reflexivity | exact IH]. Qed.

Lemma resume_no_exchange (r : request_config) (x : exchange) (w : world) :
  exchanges (trace (fst (onRejected_resume r x w))) = exchanges (trace w)
  /\ awaiting (fst (onRejected_resume r x w)) = awaiting w.
Proof.
  destruct (resume_cases x) as [[e He]|[token Ht]].
  - rewrite (resume_rejected r x e w He). simpl.
    rewrite !exchanges_app, exchanges_settled. simpl. now rewrite app_nil_r.
  - rewrite (resume_resolved r x token w Ht). simpl.
    rewrite !exchanges_app, exchanges_settled. simpl. now rewrite app_nil_r.
Qed.

(** C7 at its failing input.  An error that carries the descriptor of its
    request is handed back untouched, in an unchanged world, exactly when it
    is not a 401 on a request that is neither marked retried nor addressed
    to the refresh endpoint: no response, another status, a set marker or the
    refresh url all pass through; and whatever the refresh exchange answers,
    resuming the handler starts no further exchange and suspends no further
    handler.  But a failure that carries no descriptor, such as the TypeError
    of a body that cannot be serialised, is not handed back: the world stays
    as it was and no refresh is attempted, yet the handler's promise rejects
    with the TypeError of the read of [originalRequest.url] at line 56 in
    place of the failure. *)
Theorem interception_scope (w : world) (error : axios_error) :
  (handle_response_error (AxiosError error) w
   = (w, Normal (Rejects (AxiosError error)))
   <-> ~ auth_failure error)
  /\ (forall r x,
        exchanges (trace (fst (onRejected_resume r x w))) = exchanges (trace w)
        /\ awaiting (fst (onRejected_resume r x w)) = awaiting w)
  /\ (forall msg,
        async_result (handle_response_error (TypeError msg) w)
        = (w, Rejects (TypeError "Cannot read properties of undefined (reading 'url')")))
  /\ (forall message edata estatus,
        async_result (handle_response_error (Error message edata estatus) w)
        = (w, Rejects (TypeError "Cannot read properties of undefined (reading 'url')")))
  /\ async_result
       (handle_response_error (TypeError "Do not know how to serialize a BigInt") w)
     <> (w, Rejects (TypeError "Do not know how to serialize a BigInt")).
Proof.
  split; [|split; [intros r x; apply resume_no_exchange|]]; cycle 1.
  { split; [reflexivity|]. split; [reflexivity|]. simpl. intros H. inversion H. }
  change (handle_response_error (AxiosError error) w) with (onRejected error w).
  rewrite <- should_refresh_spec. split.
  - intros Heq Hs.
    destruct (isRefreshing w) eqn:Hr.
    + rewrite (onRejected_queue error w Hs Hr) in Heq.
      discriminate.
    + destruct (truthy_item (localStorage w !! "refreshToken")) eqn:Ht.
      * destruct (localStorage w !! "refreshToken") as [tok|] eqn:Hl; [|discriminate].
        assert (tok <> EmptyString) by (intros ->; discriminate).
        rewrite (onRejected_refresh error w tok Hs Hr Hl) in Heq by assumption.
        discriminate.
      * rewrite (onRejected_logout error w Hs Hr Ht) in Heq.
        apply (f_equal (fun p => List.length (trace (fst p)))) in Heq.
        simpl in Heq. rewrite length_app in Heq. simpl in Heq. lia.
  - intros Hs. apply onRejected_pass.
    destruct (should_refresh error); [now elim Hs | reflexivity].
Qed.

(** ** One turn of the event loop, in closed form *)

Lemma run_jobs_nil (w : world) : jobs w = [] -> run_jobs w = (w, []).
Proof.
  intros H. unfold run_jobs. rewrite H. simpl.
  destruct w; unfold set_jobs; simpl in *. now subst.
Qed.

Lemma onRejected_cases (error : axios_error) (w : world) :
  exists o, snd (onRejected error w) = Normal o
            /\ jobs (fst (onRejected error w)) = jobs w.
Proof.
  destruct (should_refresh error) eqn:Hs.
  - destruct (isRefreshing w) eqn:Hr.
    + rewrite (onRejected_queue error w Hs Hr). simpl. eauto.
    + destruct (truthy_item (localStorage w !! "refreshToken")) eqn:Ht.
      * destruct (localStorage w !! "refreshToken") as [tok|] eqn:Hl; [|discriminate].
        assert (tok <> EmptyString) by (intros ->; discriminate).
        rewrite (onRejected_refresh error w tok Hs Hr Hl) by assumption.
        simpl. eauto.
      * rewrite (onRejected_logout error w Hs Hr Ht). simpl. eauto.
  - rewrite (onRejected_pass error w Hs). simpl. eauto.
Qed.

Lemma step_error_eq (error : axios_error) (w : world) :
  jobs w = [] -> step w (ResponseError (AxiosError error)) = fst (onRejected error w).
Proof.
  intros Hj. unfold step. simpl.
  destruct (onRejected_cases error w) as [o [Ho Hjobs]].
  destruct (onRejected error w) as [w1 c]; simpl in *. subst c. simpl.
  rewrite run_jobs_nil; [reflexivity | congruence].
Qed.

Lemma flat_map_rejections (w : world) (e : thrown) (q : list prom) :
  List.flat_map (reaction_effects w) (List.map (fun p => (p, RejectedWith e)) q) = [].
Proof. induction q as [|p q IH]; simpl; [reflexivity | exact IH]. Qed.

Lemma flat_map_resolutions (w : world) (token : value) (q : list prom) :
  List.flat_map (reaction_effects w) (List.map (fun p => (p, Resolved token)) q)
  = List.map (fun p => Send (replay_of w token p)) q.
Proof. induction q as [|p q IH]; simpl; [reflexivity | now rewrite IH]. Qed.

Lemma reaction_outcomes_resolved (w : world) (token : value) (q : list prom) :
  List.map (reaction_outcome w) (List.map (fun p => (p, Resolved token)) q)
  = List.map (fun p => (prom_id p, Follows (replay_of w token p))) q.
Proof. induction q as [|p q IH]; simpl; [reflexivity | now rewrite IH]. Qed.

Lemma reaction_outcomes_refused (w : world) (e : thrown) (q : list prom) :
  List.map (reaction_outcome w) (List.map (fun p => (p, RejectedWith e)) q)
  = List.map (fun p => (prom_id p, Rejects e)) q.
Proof. induction q as [|p q IH]; simpl; [reflexivity | now rewrite IH]. Qed.

Lemma turn_settled_rejected (r : request_config) (x : exchange) (e : thrown) (w : world) :
  awaiting w = [r] -> jobs w = [] -> refresh_result x = inl e ->
  turn w (RefreshSettled 0 x)
  = (mkWorld (API_BASE_URL w) false []
       (delete "refreshToken" (delete "accessToken" (localStorage w)))
       (defaults_headers w) [] [] (next_promise w)
       (trace w ++ List.map (fun p => Settled (prom_id p) (RejectedWith e)) (failedQueue w)
          ++ [Navigate "/login"]),
     List.map (fun p => (prom_id p, Rejects e)) (failedQueue w)).
Proof.
  intros Ha Hj Hx. unfold turn. rewrite Ha. simpl.
  rewrite (resume_rejected r x e _ Hx). simpl.
  unfold run_jobs. rewrite run_reactions_eq. simpl.
  rewrite Hj. simpl. rewrite flat_map_rejections, reaction_outcomes_refused.
  unfold set_trace, set_jobs. simpl. now rewrite app_nil_r.
Qed.

Lemma turn_settled_resolved (r : request_config) (x : exchange) (token : value) (w : world) :
  awaiting w = [r] -> jobs w = [] -> refresh_result x = inr token ->
  turn w (RefreshSettled 0 x)
  = (mkWorld (API_BASE_URL w) false []
       (<["accessToken" := ToString token]> (localStorage w))
       (<["Authorization" := "Bearer " +:+ ToString token]> (defaults_headers w))
       [] [] (next_promise w)
       (trace w
          ++ List.map (fun p => Settled (prom_id p) (Resolved (default_null token)))
                      (failedQueue w)
          ++ [Send (retry_of w token r)]
          ++ List.map (fun p => Send (replay_of (refreshed token w) (default_null token) p))
                      (failedQueue w)),
     List.map (fun p => (prom_id p,
                         Follows (replay_of (refreshed token w) (default_null token) p)))
              (failedQueue w)).
Proof.
  intros Ha Hj Hx. unfold turn. rewrite Ha. simpl.
  rewrite (resume_resolved r x token _ Hx). simpl.
  unfold run_jobs. rewrite run_reactions_eq. simpl.
  rewrite Hj. simpl. rewrite flat_map_resolutions, reaction_outcomes_resolved.
  unfold set_trace, set_jobs. simpl. rewrite <- !app_assoc. reflexivity.
Qed.

Lemma step_settled_rejected (r : request_config) (x : exchange) (e : thrown) (w : world) :
  awaiting w = [r] -> jobs w = [] -> refresh_result x = inl e ->
  step w (RefreshSettled 0 x)
  = mkWorld (API_BASE_URL w) false []
      (delete "refreshToken" (delete "accessToken" (localStorage w)))
      (defaults_headers w) [] [] (next_promise w)
      (trace w ++ List.map (fun p => Settled (prom_id p) (RejectedWith e)) (failedQueue w)
         ++ [Navigate "/login"]).
Proof.
  intros Ha Hj Hx. unfold step. now rewrite (turn_settled_rejected r x e w Ha Hj Hx).
Qed.

Lemma step_settled_resolved (r : request_config) (x : exchange) (token : value) (w : world) :
  awaiting w = [r] -> jobs w = [] -> refresh_result x = inr token ->
  step w (RefreshSettled 0 x)
  = mkWorld (API_BASE_URL w) false []
      (<["accessToken" := ToString token]> (localStorage w))
      (<["Authorization" := "Bearer " +:+ ToString token]> (defaults_headers w))
      [] [] (next_promise w)
      (trace w
         ++ List.map (fun p => Settled (prom_id p) (Resolved (default_null token)))
                     (failedQueue w)
         ++ [Send (retry_of w token r)]
         ++ List.map (fun p => Send (replay_of (refreshed token w) (default_null token) p))
                     (failedQueue w)).
Proof.
  intros Ha Hj Hx. unfold step. now rewrite (turn_settled_resolved r x token w Ha Hj Hx).
Qed.

Lemma step_error_without_config (error : thrown) (w : world) :
  jobs w = [] ->
  (forall e, error <> AxiosError e) ->
  turn w (ResponseError error) = (w, []).
Proof.
  intros Hj Hne. unfold turn.
  destruct error as [e|msg|m d s]; [now elim (Hne e) | |]; simpl;
    now apply run_jobs_nil.
Qed.

(** ** The invariant *)

Lemma settle_count_app (p : nat) (t1 t2 : list effect) :
  settle_count p (t1 ++ t2) = settle_count p t1 + settle_count p t2.
Proof. unfold settle_count. now rewrite List.filter_app, length_app. Qed.

Lemma settle_count_sends (p : nat) (f : prom -> request_config) (q : list prom) :
  settle_count p (List.map (fun x => Send (f x)) q) = 0.
Proof. induction q as [|x q IH]; simpl; [reflexivity | exact IH]. Qed.

Lemma settle_count_queue (p : nat) (s : settlement) (q : list prom) :
  List.NoDup (List.map prom_id q) ->
  settle_count p (List.map (fun x => Settled (prom_id x) s) q)
  = if existsb (Nat.eqb p) (List.map prom_id q) then 1 else 0.
Proof.
  induction q as [|x q IH]; intros Hnd; [reflexivity|].
  simpl in Hnd. apply NoDup_cons_iff in Hnd as [Hnotin Hnd].
  unfold settle_count in *. simpl.
  destruct (Nat.eqb_spec p (prom_id x)) as [->|Hne]; simpl.
  - rewrite IH by assumption.
    destruct (existsb (Nat.eqb (prom_id x)) (List.map prom_id q)) eqn:Hex; [|reflexivity].
    apply existsb_exists in Hex as [y [Hy Heq]].
    apply Nat.eqb_eq in Heq. subst y. contradiction.
  - now apply IH.
Qed.

Lemma existsb_eqb_In (p : nat) (l : list nat) :
  existsb (Nat.eqb p) l = true <-> List.In p l.
Proof.
  rewrite existsb_exists. split.
  - intros [y [Hy Heq]]. apply Nat.eqb_eq in Heq. now subst.
  - intros H. exists p. split; [assumption | apply Nat.eqb_refl].
Qed.

Lemma Inv_initial (base : string) (ls : gmap string string) : Inv (initial base ls).
Proof.
  constructor; simpl.
  - reflexivity.
  - intros _. split; reflexivity.
  - discriminate.
  - constructor.
  - intros p [].
  - intros p. reflexivity.
Qed.

Lemma Inv_storage (key : string) (v : option string) (w : world) :
  Inv w -> Inv (storage_write key v w).
Proof. intros [H1 H2 H3 H4 H5 H6]. destruct v; constructor; assumption. Qed.

Lemma Inv_error (error : axios_error) (w : world) :
  Inv w -> Inv (step w (ResponseError (AxiosError error))).
Proof.
  intros HI. pose proof HI as [Hj Hidle Hbusy Hnd Hfresh Hcount].
  rewrite step_error_eq by assumption.
  destruct (should_refresh error) eqn:Hs.
  - destruct (isRefreshing w) eqn:Hr.
    + rewrite (onRejected_queue error w Hs Hr). simpl.
      constructor; simpl; try easy.
      * unfold queue_ids in *. simpl. rewrite map_app. simpl.
        apply NoDup_ListNoDup, NoDup_app. split; [now apply NoDup_ListNoDup|]. split.
        -- intros p Hp Hin. apply list_elem_of_In in Hp.
           apply list_elem_of_singleton in Hin. subst p. apply Hfresh in Hp. lia.
        -- apply NoDup_singleton.
      * unfold queue_ids in *. simpl. intros p. rewrite map_app, in_app_iff. simpl.
        intros [Hp|[<-|[]]]; [apply Hfresh in Hp|]; lia.
      * intros p. rewrite Hcount. unfold queue_ids in *. simpl.
        rewrite map_app, existsb_app. simpl. rewrite orb_false_r.
        destruct (Nat.eqb_spec p (next_promise w)) as [->|Hne].
        -- rewrite Nat.ltb_irrefl. simpl. now rewrite orb_true_r, andb_false_r.
        -- rewrite orb_false_r.
           destruct (Nat.ltb_spec p (next_promise w)), (Nat.ltb_spec p (S (next_promise w)));
             try lia; reflexivity.
    + destruct (Hidle eq_refl) as [Hq Ha].
      destruct (truthy_item (localStorage w !! "refreshToken")) eqn:Ht.
      * destruct (localStorage w !! "refreshToken") as [tok|] eqn:Hl; [|discriminate].
        assert (tok <> EmptyString) by (intros ->; discriminate).
        rewrite (onRejected_refresh error w tok Hs Hr Hl) by assumption. simpl.
        constructor; simpl; try easy.
        -- intros _. rewrite Ha. simpl. eauto.
        -- intros p. unfold queue_ids in *. simpl.
           rewrite settle_count_app, Hcount. apply Nat.add_0_r.
      * rewrite (onRejected_logout error w Hs Hr Ht). simpl.
        constructor; simpl; try easy.
        intros p. unfold queue_ids in *. simpl.
        rewrite settle_count_app, Hcount. apply Nat.add_0_r.
  - now rewrite (onRejected_pass error w Hs).
Qed.

Lemma Inv_awaiting (w : world) (i : nat) (r : request_config) :
  Inv w -> awaiting w !! i = Some r ->
  i = 0 /\ awaiting w = [r] /\ isRefreshing w = true.
Proof.
  intros [Hj Hidle Hbusy Hnd Hfresh Hcount] Hl.
  destruct (isRefreshing w) eqn:Hr.
  - destruct (Hbusy eq_refl) as [r' Ha]. rewrite Ha in Hl.
    destruct i as [|i]; simpl in Hl; [|discriminate].
    inversion Hl; subst. auto.
  - destruct (Hidle eq_refl) as [_ Ha]. rewrite Ha in Hl. discriminate.
Qed.

Lemma Inv_settled (i : nat) (x : exchange) (w : world) :
  Inv w -> Inv (step w (RefreshSettled i x)).
Proof.
  intros HI. pose proof HI as [Hj Hidle Hbusy Hnd Hfresh Hcount].
  destruct (awaiting w !! i) as [r|] eqn:Hl; [|unfold step; simpl; now rewrite Hl].
  destruct (Inv_awaiting w i r HI Hl) as [-> [Ha Hr]].
  assert (Hc : forall p (s : settlement) (rest : list effect),
             settle_count p rest = 0 ->
             settle_count p
               (trace w ++ List.map (fun q => Settled (prom_id q) s) (failedQueue w) ++ rest)
             = if Nat.ltb p (next_promise w) && negb (existsb (Nat.eqb p) []) then 1 else 0).
  { intros p s rest Hrest.
    rewrite !settle_count_app, Hcount, settle_count_queue, Hrest by assumption.
    simpl. rewrite andb_true_r. unfold queue_ids.
    destruct (existsb (Nat.eqb p) (List.map prom_id (failedQueue w))) eqn:Hex.
    - apply existsb_eqb_In in Hex. apply Hfresh in Hex.
      destruct (Nat.ltb_spec p (next_promise w)); [simpl; lia | lia].
    - rewrite andb_true_r. destruct (Nat.ltb p (next_promise w)); simpl; lia. }
  destruct (resume_cases x) as [[e He]|[token Ht]].
  - rewrite (step_settled_rejected r x e w Ha Hj He).
    constructor; simpl; try easy.
    + constructor.
    + intros p. now apply Hc.
  - rewrite (step_settled_resolved r x token w Ha Hj Ht).
    constructor; simpl; try easy.
    + constructor.
    + intros p. apply Hc.
      exact (settle_count_sends p (replay_of (refreshed token w) (default_null token))
                                (failedQueue w)).
Qed.

Lemma step_without_config (error : thrown) (w : world) :
  jobs w = [] -> (forall e, error <> AxiosError e) -> step w (ResponseError error) = w.
Proof.
  intros Hj Hne. unfold step. now rewrite (step_error_without_config error w Hj Hne).
Qed.

Lemma Inv_step (ev : event) (w : world) : Inv w -> Inv (step w ev).
Proof.
  destruct ev as [[error|msg|m d s]|i x|key v].
  - apply Inv_error.
  - intros HI. now rewrite step_without_config by (try apply (inv_jobs w HI); discriminate).
  - intros HI. now rewrite step_without_config by (try apply (inv_jobs w HI); discriminate).
  - apply Inv_settled.
  - apply Inv_storage.
Qed.

Lemma Inv_run (evs : list event) (w : world) : Inv w -> Inv (run w evs).
Proof.
  revert w. induction evs as [|ev evs IH]; intros w HI; [exact HI|].
  simpl. apply IH. now apply Inv_step.
Qed.

Lemma Inv_reachable (base : string) (ls : gmap string string) (evs : list event) :
  Inv (run (initial base ls) evs).
Proof. apply Inv_run, Inv_initial. Qed.

(** ** The refresh state *)

Lemma settled_in_trace (s : settlement) (q : list prom) (p : prom)
      (before after : list effect) :
  List.In p q ->
  List.In (Settled (prom_id p) s)
          (before ++ List.map (fun x => Settled (prom_id x) s) q ++ after).
Proof.
  intros Hp. apply in_or_app. right. apply in_or_app. left.
  apply (in_map (fun x => Settled (prom_id x) s)). exact Hp.
Qed.

Lemma step_settled_summary (w : world) (i : nat) (r : request_config) (x : exchange) :
  Inv w -> awaiting w !! i = Some r ->
  let w' := step w (RefreshSettled i x) in
  isRefreshing w' = false /\ failedQueue w' = [] /\ jobs w' = [] /\ awaiting w' = []
  /\ next_promise w' = next_promise w
  /\ exchanges (trace w') = exchanges (trace w)
  /\ forall p, List.In p (failedQueue w) ->
               List.In (Settled (prom_id p) (settlement_of x)) (trace w').
Proof.
  intros HI Hl. destruct (Inv_awaiting w i r HI Hl) as [-> [Ha Hr]].
  pose proof (inv_jobs w HI) as Hj.
  cbv zeta.
  destruct (resume_cases x) as [[e He]|[token Ht]]; unfold settlement_of.
  - rewrite He. rewrite (step_settled_rejected r x e w Ha Hj He). simpl.
    repeat split.
    + rewrite !exchanges_app, exchanges_settled. simpl. now rewrite app_nil_r.
    + intros p Hp. now apply settled_in_trace.
  - rewrite Ht. rewrite (step_settled_resolved r x token w Ha Hj Ht). simpl.
    repeat split.
    + rewrite !exchanges_app, exchanges_settled. simpl.
      change (exchanges (trace w) ++
              exchanges (List.map (fun p => Send (replay_of (refreshed token w)
                                                            (default_null token) p))
                                  (failedQueue w)) = exchanges (trace w)).
      replace (exchanges (List.map _ (failedQueue w))) with (@nil effect).
      * apply app_nil_r.
      * induction (failedQueue w) as [|p q IH]; simpl; [reflexivity | exact IH].
    + intros p Hp.
      apply (settled_in_trace (Resolved (default_null token)) (failedQueue w) p (trace w)).
      exact Hp.
Qed.


(** C10.  In every reachable world, a handler that finds the coordinator idle
    and no usable refresh token finds the queue empty, and leaves it empty
    with no reaction scheduled and no handler suspended: nobody is waiting
    for the drain that this branch does not perform. *)
Theorem missing_token_branch_has_empty_queue (base : string) (ls : gmap string string)
        (evs : list event) (error : axios_error) :
  let w := run (initial base ls) evs in
  should_refresh error = true ->
  isRefreshing w = false ->
  truthy_item (localStorage w !! "refreshToken") = false ->
  failedQueue w = []
  /\ failedQueue (fst (onRejected error w)) = []
  /\ jobs (fst (onRejected error w)) = []
  /\ awaiting (fst (onRejected error w)) = []
  /\ isRefreshing (fst (onRejected error w)) = false.
Proof.
  intros w Hs Hr Ht. assert (HI : Inv w) by apply Inv_reachable.
  destruct (inv_idle w HI Hr) as [Hq Ha].
  rewrite (onRejected_logout error w Hs Hr Ht). simpl.
  repeat split; try assumption. apply (inv_jobs w HI).
Qed.

(** ** Replays *)

Lemma sent_as_frame_fields (w : world) (c : request_config) :
  url (sent_as w c) = url c /\ method (sent_as w c) = method c
  /\ body (sent_as w c) = body c /\ _retry (sent_as w c) = _retry c.
Proof.
  unfold sent_as. destruct (localStorage w !! "accessToken") as [token|].
  - destruct (String.eqb token EmptyString); repeat split.
  - repeat split.
Qed.






(** ** Single flight *)






(** ** Leaving the refreshing state *)

Lemma async_result_fst (r : world * completion outcome) : fst (async_result r) = fst r.
Proof. destruct r as [w [o|t]]; reflexivity. Qed.

Lemma finally_resets {A} (body : M A) (handler : thrown -> M A) (w : world) :
  isRefreshing
    (fst (try_catch_finally body handler (modify (set_isRefreshing false)) w)) = false.
Proof.
  unfold try_catch_finally.
  destruct (body w) as [w1 [a|t]].
  - reflexivity.
  - destruct (handler t w1) as [w2 c2]. reflexivity.
Qed.

(** C6.  Whatever the exchange answers, and whatever the body and the
    handler of a [try] with this [finally] do, throwing included, the world
    they leave has [isRefreshing] cleared; so has the branch taken for want
    of a refresh token.  In the world left by an attempt, a later failure
    that meets the trigger condition is never put on the queue, and starts a
    new exchange as soon as a refresh token is stored.  And in every world
    reached from the loaded module with the flag set, one exchange is
    awaited, and its settling, whatever the answer, clears the flag. *)
Theorem refreshing_flag_always_reset (w : world) (r : request_config) (x : exchange) :
  let w' := fst (async_result (onRejected_resume r x w)) in
  isRefreshing w' = false
  /\ (forall (A : Type) (body : M A) (handler : thrown -> M A),
        isRefreshing
          (fst (try_catch_finally body handler (modify (set_isRefreshing false)) w))
        = false)
  /\ (forall error,
        should_refresh error = true -> isRefreshing w = false ->
        truthy_item (localStorage w !! "refreshToken") = false ->
        isRefreshing (fst (async_result (onRejected error w))) = false)
  /\ (forall error,
        should_refresh error = true ->
        (forall p, snd (onRejected error w') <> Normal (WaitsInQueue p))
        /\ (forall refreshToken,
              localStorage w' !! "refreshToken" = Some refreshToken ->
              refreshToken <> EmptyString ->
              snd (onRejected error w') = Normal WaitsForRefresh
              /\ trace (fst (onRejected error w'))
                 = trace w' ++ [Exchange (API_BASE_URL w' +:+ REFRESH_TOKEN_ENDPOINT)
                                         refreshToken]))
  /\ (forall base ls evs,
        isRefreshing (run (initial base ls) evs) = true ->
        (exists originalRequest, awaiting (run (initial base ls) evs) = [originalRequest])
        /\ forall answer,
            isRefreshing (step (run (initial base ls) evs) (RefreshSettled 0 answer))
            = false).
Proof.
  intros w'.
  assert (Hw' : isRefreshing w' = false).
  { subst w'. rewrite async_result_fst. apply finally_resets. }
  split; [exact Hw'|]. split; [intros A body handler; apply finally_resets|].
  split; [|split]; cycle 2.
  { intros base ls evs Hr.
    pose proof (Inv_reachable base ls evs) as HI.
    destruct (inv_busy _ HI Hr) as [r0 Ha]. split; [eauto|].
    intros answer.
    assert (Hl : awaiting (run (initial base ls) evs) !! 0 = Some r0) by (now rewrite Ha).
    now destruct (step_settled_summary _ 0 r0 answer HI Hl) as (H & _). }
  - intros error Hs Hr Ht. rewrite async_result_fst.
    now rewrite (onRejected_logout error w Hs Hr Ht).
  - intros error Hs. split.
    + intros p.
      destruct (truthy_item (localStorage w' !! "refreshToken")) eqn:Ht.
      * destruct (localStorage w' !! "refreshToken") as [tok|] eqn:Hl; [|discriminate].
        assert (tok <> EmptyString) by (intros ->; discriminate).
        rewrite (onRejected_refresh error w' tok Hs Hw' Hl) by assumption.
        discriminate.
      * rewrite (onRejected_logout error w' Hs Hw' Ht). discriminate.
    + intros tok Hl Hne.
      rewrite (onRejected_refresh error w' tok Hs Hw' Hl Hne). split; reflexivity.
Qed.

(** ** Unrecoverable refresh *)

Lemma reaction_outcomes_rejected (w : world) (e : thrown) (q : list prom) :
  List.map (reaction_outcome w) (List.map (fun p => (p, RejectedWith e)) q)
  = List.map (fun p => (prom_id p, Rejects e)) q.
Proof. induction q as [|p q IH]; simpl; [reflexivity | now rewrite IH]. Qed.

(** C3, as the code has it.  When the exchange fails with [e] (a rejection
    of the call, or the error thrown on a body that is [null]): the handler's
    promise rejects with [e]; every queued promise is rejected with [e] and
    so is its caller; both tokens are removed; the only effects are these
    rejections followed by one navigation to the login page; the flag is
    cleared and the queue empty.  When the coordinator is idle and no usable
    refresh token is stored: the only effect is one navigation to the login
    page, so no request leaves; both tokens are removed; the flag is cleared;
    queue, scheduled reactions and suspended handlers are untouched; and the
    handler's promise rejects with the 401 error of the triggering request
    itself, its descriptor now marked retried. *)
Theorem unrecoverable_refresh (w : world) :
  (forall r x e,
      refresh_result x = inl e -> jobs w = [] ->
      let w1 := fst (onRejected_resume r x w) in
      async_result (onRejected_resume r x w) = (w1, Rejects e)
      /\ jobs w1 = List.map (fun p => (p, RejectedWith e)) (failedQueue w)
      /\ snd (run_jobs w1) = List.map (fun p => (prom_id p, Rejects e)) (failedQueue w)
      /\ trace (fst (run_jobs w1))
         = trace w
             ++ List.map (fun p => Settled (prom_id p) (RejectedWith e)) (failedQueue w)
             ++ [Navigate "/login"]
      /\ navigations (trace (fst (run_jobs w1)))
         = navigations (trace w) ++ [Navigate "/login"]
      /\ localStorage w1 !! "accessToken" = None
      /\ localStorage w1 !! "refreshToken" = None
      /\ isRefreshing w1 = false /\ failedQueue w1 = [])
  /\ (forall error,
        should_refresh error = true -> isRefreshing w = false ->
        truthy_item (localStorage w !! "refreshToken") = false ->
        let w1 := fst (onRejected error w) in
        async_result (onRejected error w)
        = (w1, Rejects (AxiosError (set_config (set_retry true (config error)) error)))
        /\ trace w1 = trace w ++ [Navigate "/login"]
        /\ localStorage w1 !! "accessToken" = None
        /\ localStorage w1 !! "refreshToken" = None
        /\ isRefreshing w1 = false
        /\ failedQueue w1 = failedQueue w /\ jobs w1 = jobs w
        /\ awaiting w1 = awaiting w).
Proof.
  split.
  - intros r x e Hx Hj w1. subst w1.
    rewrite (resume_rejected r x e w Hx). simpl. rewrite Hj. simpl.
    repeat split.
    + unfold run_jobs. rewrite run_reactions_eq. simpl.
      apply reaction_outcomes_rejected.
    + unfold run_jobs. rewrite run_reactions_eq. simpl.
      rewrite flat_map_rejections. now rewrite app_nil_r.
    + unfold run_jobs. rewrite run_reactions_eq. simpl.
      rewrite flat_map_rejections, app_nil_r.
      unfold navigations. rewrite !List.filter_app. simpl.
      replace (List.filter is_navigate
                 (List.map (fun p => Settled (prom_id p) (RejectedWith e)) (failedQueue w)))
        with (@nil effect); [reflexivity|].
      induction (failedQueue w) as [|p q IH]; simpl; [reflexivity | exact IH].
    + rewrite lookup_delete_ne by discriminate. apply lookup_delete_eq.
    + apply lookup_delete_eq.
  - intros error Hs Hr Ht w1. subst w1.
    rewrite (onRejected_logout error w Hs Hr Ht). simpl.
    repeat split.
    + rewrite lookup_delete_ne by discriminate. apply lookup_delete_eq.
    + apply lookup_delete_eq.
Qed.

(** C3 as stated fails in the branch taken for want of a refresh token: no
    exchange is made, so there is no refresh error, and the promise of the
    triggering request rejects with that request's own 401 error, an error of
    its own url and not of the refresh endpoint. *)
Lemma missing_token_rejects_with_original_error :
  let error := e401 reqB in
  let w1 := fst (onRejected error w_no_refresh) in
  let o := snd (async_result (onRejected error w_no_refresh)) in
  localStorage w_no_refresh !! "refreshToken" = None
  /\ o = Rejects (AxiosError (mkAxiosError (set_retry true reqB) (response error) true))
  /\ exchanges (trace w1) = []
  /\ (forall e, o = Rejects e ->
        e <> refresh_rejected
        /\ exists a, e = AxiosError a
                     /\ url (config a) = "/api/solo/session-logs/"
                     /\ endsWith (url (config a)) REFRESH_TOKEN_ENDPOINT = false).
Proof.
  split; [reflexivity|]. split; [reflexivity|]. split; [reflexivity|].
  intros e He. vm_compute in He. inversion He; subst e. split.
  - discriminate.
  - eexists. split; [reflexivity|]. split; reflexivity.
Qed.

(** ** Successful refresh *)



(** ** One retry per request *)

(** C2 at its failing input.  [reqB] fails with 401 while the refresh
    triggered by [reqA] is in flight and is queued; the refresh succeeds and
    [reqB] is replayed, its descriptor still unmarked; the replay fails with
    401, meets the trigger condition again, starts a second exchange and is
    replayed a second time.  A descriptor that is marked is handed back. *)
Theorem queued_request_is_retried_twice :
  let w3 := run w_logged_in (firstn 3 queued_then_failing) in
  let w5 := run w_logged_in queued_then_failing in
  (forall w error,
      _retry (config error) = true ->
      onRejected error w = (w, Normal (Rejects (AxiosError error))))
  /\ sends_to (url reqB) (trace w3) = [replayB1]
  /\ _retry replayB1 = false
  /\ should_refresh (e401 replayB1) = true
  /\ List.length (sends_to (url reqB) (trace w5)) = 2
  /\ List.map _retry (sends_to (url reqB) (trace w5)) = [false; true]
  /\ List.length (exchanges (trace w5)) = 2
  /\ sends_to (url reqA) (trace w5)
     = [retry_of w_logged_in (Some (JStr "T2")) (set_retry true reqA)]
  /\ should_refresh (e401 (retry_of w_logged_in (Some (JStr "T2")) (set_retry true reqA)))
     = false.
Proof.
  split.
  - intros w error Hm. apply onRejected_pass.
    unfold should_refresh. rewrite Hm. simpl. now rewrite andb_false_r.
  - vm_compute. repeat split; reflexivity.
Qed.

(** ** Error normalisation *)




(** ** The statements at concrete inputs *)



Lemma missing_token_branch_witness :
  let evs := [ResponseError (AxiosError (e401 reqA)); RefreshSettled 0 (Failed refresh_rejected)] in
  let w := run w_logged_in evs in
  should_refresh (e401 reqB) = true
  /\ isRefreshing w = false
  /\ truthy_item (localStorage w !! "refreshToken") = false
  /\ failedQueue w = []
  /\ failedQueue (fst (onRejected (e401 reqB) w)) = [].
Proof.
  assert (H1 : should_refresh (e401 reqB) = true) by (vm_compute; reflexivity).
  assert (H2 : isRefreshing
                 (run w_logged_in
                      [ResponseError (AxiosError (e401 reqA));
                       RefreshSettled 0 (Failed refresh_rejected)]) = false)
    by (vm_compute; reflexivity).
  assert (H3 : truthy_item
                 (localStorage
                    (run w_logged_in
                         [ResponseError (AxiosError (e401 reqA));
                          RefreshSettled 0 (Failed refresh_rejected)])
                  !! "refreshToken") = false)
    by (vm_compute; reflexivity).
  pose proof (missing_token_branch_has_empty_queue "https://www.squashsync.com"
                {["accessToken" := "T1"; "refreshToken" := "R1"]}
                [ResponseError (AxiosError (e401 reqA)); RefreshSettled 0 (Failed refresh_rejected)]
                (e401 reqB) H1 H2 H3) as H.
  cbv zeta in H. destruct H as (Hq & Hq' & _).
  split; [exact H1|]. split; [exact H2|]. split; [exact H3|].
  split; [exact Hq | exact Hq'].
Defined.


Lemma refreshing_flag_always_reset_witness :
  let w := run (initial "https://www.squashsync.com"
                  {["accessToken" := "T1"; "refreshToken" := "R1"]})
               [ResponseError (AxiosError (e401 reqA))] in
  let w' := fst (async_result
                   (onRejected_resume (set_retry true reqA) (token_reply "T2") w)) in
  should_refresh (e401 reqB) = true
  /\ localStorage w' !! "refreshToken" = Some "R1"
  /\ isRefreshing w = true
  /\ isRefreshing w' = false
  /\ snd (onRejected (e401 reqB) w') = Normal WaitsForRefresh.
Proof.
  pose proof (refreshing_flag_always_reset
                (run (initial "https://www.squashsync.com"
                        {["accessToken" := "T1"; "refreshToken" := "R1"]})
                     [ResponseError (AxiosError (e401 reqA))])
                (set_retry true reqA) (token_reply "T2")) as H.
  cbv zeta in H. destruct H as (Hr' & _ & _ & Hlater & _).
  assert (Hs : should_refresh (e401 reqB) = true) by (vm_compute; reflexivity).
  assert (Hl : localStorage
                 (fst (async_result
                         (onRejected_resume (set_retry true reqA) (token_reply "T2")
                            (run (initial "https://www.squashsync.com"
                                    {["accessToken" := "T1"; "refreshToken" := "R1"]})
                                 [ResponseError (AxiosError (e401 reqA))]))))
               !! "refreshToken" = Some "R1") by (vm_compute; reflexivity).
  assert (Hw : isRefreshing
                 (run (initial "https://www.squashsync.com"
                         {["accessToken" := "T1"; "refreshToken" := "R1"]})
                      [ResponseError (AxiosError (e401 reqA))]) = true) by (vm_compute; reflexivity).
  assert (Hne : "R1" <> EmptyString) by discriminate.
  destruct (Hlater (e401 reqB) Hs) as (_ & Hstart).
  destruct (Hstart "R1" Hl Hne) as (Ho & _).
  split; [exact Hs|]. split; [exact Hl|]. split; [exact Hw|].
  split; [exact Hr' | exact Ho].
Defined.

Lemma unrecoverable_refresh_witness :
  let w := run (initial "https://www.squashsync.com"
                  {["accessToken" := "T1"; "refreshToken" := "R1"]})
               [ResponseError (AxiosError (e401 reqA)); ResponseError (AxiosError (e401 reqB))] in
  let w1 := fst (onRejected_resume (set_retry true reqA) (Failed refresh_rejected) w) in
  jobs w = []
  /\ snd (run_jobs w1) = List.map (fun p => (prom_id p, Rejects refresh_rejected))
                                  (failedQueue w)
  /\ localStorage w1 !! "accessToken" = None
  /\ localStorage w1 !! "refreshToken" = None.
Proof.
  pose proof (unrecoverable_refresh
                (run (initial "https://www.squashsync.com"
                        {["accessToken" := "T1"; "refreshToken" := "R1"]})
                     [ResponseError (AxiosError (e401 reqA)); ResponseError (AxiosError (e401 reqB))])) as H.
  destruct H as (Hfail & _).
  assert (Hx : refresh_result (Failed refresh_rejected) = inl refresh_rejected)
    by reflexivity.
  assert (Hj : jobs
                 (run (initial "https://www.squashsync.com"
                         {["accessToken" := "T1"; "refreshToken" := "R1"]})
                      [ResponseError (AxiosError (e401 reqA)); ResponseError (AxiosError (e401 reqB))]) = [])
    by (vm_compute; reflexivity).
  pose proof (Hfail (set_retry true reqA) (Failed refresh_rejected) refresh_rejected Hx Hj)
    as H.
  cbv zeta in H. destruct H as (_ & _ & Ho & _ & _ & Ha & Hr & _).
  split; [exact Hj|]. split; [exact Ho|]. split; [exact Ha | exact Hr].
Defined.

(** * Further properties of the client *)

(** ** What goes on the wire *)

(** X2.  Running the request interceptor on its own result changes nothing
    more: a replayed descriptor, which has been through it once, comes out
    as it went in. *)
Theorem request_interceptor_idempotent (w : world) (c : request_config) :
  (request_interceptor c ≫= request_interceptor) w = request_interceptor c w.
Proof.
  rewrite bind_unfold, request_interceptor_eq. cbv beta iota.
  rewrite request_interceptor_eq.
  destruct (localStorage w !! "accessToken") as [token|]; [|reflexivity].
  destruct (String.eqb token EmptyString); [reflexivity|].
  unfold set_header. simpl. now rewrite insert_insert_eq.
Qed.

(** ** Draining the queue *)

(** X3.  [processQueue] settles the entries in the order of the queue, all
    with the error when one is given and otherwise all with the token, an
    [undefined] token being replaced by [null], and schedules their reactions
    in the same order; a second drain right after finds the queue empty and
    settles nothing. *)
Theorem processQueue_drains_in_order_once
        (error error' : option thrown) (token token' : value) (w : world) :
  let s := match error with
           | Some e => RejectedWith e
           | None => match token with
                     | Some j => Resolved (Some j)
                     | None => Resolved (Some JNull)
                     end
           end in
  let w1 := fst (processQueue error token w) in
  trace w1 = trace w ++ List.map (fun p => Settled (prom_id p) s) (failedQueue w)
  /\ jobs w1 = jobs w ++ List.map (fun p => (p, s)) (failedQueue w)
  /\ failedQueue w1 = []
  /\ (processQueue error token ≫= fun _ => processQueue error' token') w
     = processQueue error token w.
Proof.
  intros s w1. subst w1. rewrite bind_unfold.
  rewrite (processQueue_eq error token w).
  replace (match error with
           | Some e => RejectedWith e
           | None => Resolved (default_null token)
           end) with s by (subst s; destruct error, token; reflexivity).
  simpl.
  split; [reflexivity|]. split; [reflexivity|]. split; [reflexivity|].
  rewrite processQueue_eq. simpl. unfold set_failedQueue, set_jobs, set_trace. simpl.
  now rewrite !app_nil_r.
Qed.

(** ** The turn in which the exchange succeeds *)


(** ** What the handlers leave in place *)



(** X7.  After a refresh has failed, and until tokens are stored again, the
    next failure that meets the trigger condition contacts no server: its
    promise rejects with its own error, the page is sent to the login page
    once more and the coordinator stays idle. *)
Theorem logged_out_stays_logged_out (w : world) (r : request_config) (x : exchange)
        (e : thrown) (error : axios_error) :
  refresh_result x = inl e ->
  should_refresh error = true ->
  let w1 := fst (onRejected_resume r x w) in
  onRejected error w1
  = (set_trace (trace w1 ++ [Navigate "/login"]) w1,
     Normal (Rejects (AxiosError (set_config (set_retry true (config error)) error)))).
Proof.
  intros Hx Hs w1.
  assert (Hr : isRefreshing w1 = false).
  { subst w1. now rewrite (resume_rejected r x e w Hx). }
  assert (Ht : truthy_item (localStorage w1 !! "refreshToken") = false).
  { subst w1. rewrite (resume_rejected r x e w Hx). simpl.
    now rewrite lookup_delete_eq. }
  rewrite (onRejected_logout error w1 Hs Hr Ht). f_equal.
  subst w1. rewrite (resume_rejected r x e w Hx). unfold set_trace. simpl.
  f_equal. apply map_eq. intros k.
  destruct (decide (k = "refreshToken")) as [->|Hk].
  - now rewrite !lookup_delete_eq.
  - rewrite !(lookup_delete_ne _ "refreshToken") by congruence.
    destruct (decide (k = "accessToken")) as [->|Hk'].
    + now rewrite !lookup_delete_eq.
    + now rewrite !lookup_delete_ne by congruence.
Qed.

(** ** What every run keeps *)

Lemma Forall_settled_ok (base : string) (s : settlement) (q : list prom) :
  Forall (effect_ok base) (List.map (fun p => Settled (prom_id p) s) q).
Proof. induction q as [|p q IH]; simpl; constructor; [exact I | exact IH]. Qed.

Lemma Forall_sends_ok (base : string) (f : prom -> request_config) (q : list prom) :
  Forall (effect_ok base) (List.map (fun p => Send (f p)) q).
Proof. induction q as [|p q IH]; simpl; constructor; [exact I | exact IH]. Qed.

Lemma step_delta (w : world) (ev : event) :
  Inv w ->
  API_BASE_URL (step w ev) = API_BASE_URL w
  /\ (exists added, trace (step w ev) = trace w ++ added
                    /\ Forall (effect_ok (API_BASE_URL w)) added)
  /\ (Forall (fun r => _retry r = true) (awaiting w) ->
      Forall (fun r => _retry r = true) (awaiting (step w ev))).
Proof.
  intros HI. pose proof (inv_jobs w HI) as Hj.
  assert (Hsame : API_BASE_URL w = API_BASE_URL w
                  /\ (exists added, trace w = trace w ++ added
                                    /\ Forall (effect_ok (API_BASE_URL w)) added)
                  /\ (Forall (fun r => _retry r = true) (awaiting w) ->
                      Forall (fun r => _retry r = true) (awaiting w))).
  { split; [reflexivity|]. split; [|tauto].
    exists []. split; [now rewrite app_nil_r | constructor]. }
  destruct ev as [[error|msg|m d s]|i x|key v].
  - rewrite step_error_eq by assumption.
    destruct (should_refresh error) eqn:Hs.
    + destruct (isRefreshing w) eqn:Hr.
      * rewrite (onRejected_queue error w Hs Hr). simpl.
        split; [reflexivity|]. split; [|tauto].
        exists []. split; [now rewrite app_nil_r | constructor].
      * destruct (truthy_item (localStorage w !! "refreshToken")) eqn:Ht.
        -- destruct (localStorage w !! "refreshToken") as [tok|] eqn:Hl; [|discriminate].
           assert (Hne : tok <> EmptyString) by (intros ->; discriminate).
           rewrite (onRejected_refresh error w tok Hs Hr Hl Hne). simpl.
           split; [reflexivity|]. split.
           ++ eexists. split; [reflexivity|]. repeat constructor. exact Hne.
           ++ intros Hall. apply Forall_app. split; [exact Hall|].
              repeat constructor.
        -- rewrite (onRejected_logout error w Hs Hr Ht). simpl.
           split; [reflexivity|]. split; [|tauto].
           eexists. split; [reflexivity|]. repeat constructor.
    + rewrite (onRejected_pass error w Hs). exact Hsame.
  - rewrite step_without_config by (try assumption; discriminate). exact Hsame.
  - rewrite step_without_config by (try assumption; discriminate). exact Hsame.
  - destruct (awaiting w !! i) as [r|] eqn:Hl.
    + destruct (Inv_awaiting w i r HI Hl) as [-> [Ha Hr]].
      destruct (resume_cases x) as [[e He]|[token Ht]].
      * rewrite (step_settled_rejected r x e w Ha Hj He). simpl.
        split; [reflexivity|]. split; [|constructor].
        eexists. split; [reflexivity|].
        apply Forall_app. split; [apply Forall_settled_ok | repeat constructor].
      * rewrite (step_settled_resolved r x token w Ha Hj Ht). simpl.
        split; [reflexivity|]. split; [|constructor].
        eexists. split; [reflexivity|].
        apply Forall_app. split; [apply Forall_settled_ok|].
        constructor; [exact I | apply Forall_sends_ok].
    + unfold step. simpl. rewrite Hl. exact Hsame.
  - destruct v; exact Hsame.
Qed.

Lemma run_delta (evs : list event) (w : world) :
  Inv w ->
  Forall (effect_ok (API_BASE_URL w)) (trace w) ->
  Forall (fun r => _retry r = true) (awaiting w) ->
  API_BASE_URL (run w evs) = API_BASE_URL w
  /\ Forall (effect_ok (API_BASE_URL w)) (trace (run w evs))
  /\ Forall (fun r => _retry r = true) (awaiting (run w evs)).
Proof.
  revert w. induction evs as [|ev evs IH]; intros w HI Ht Ha; [now repeat split|].
  destruct (step_delta w ev HI) as (Hb & (added & Hadd & Hok) & Hmark).
  change (run w (ev :: evs)) with (run (step w ev) evs).
  destruct (IH (step w ev)) as (Hb' & Ht' & Ha').
  - now apply Inv_step.
  - rewrite Hb, Hadd. apply Forall_app. split; assumption.
  - now apply Hmark.
  - rewrite Hb in Hb', Ht'. repeat split; assumption.
Qed.

(** X8.  In every run of a client made with base url [base], each refresh
    exchange goes to the refresh endpoint of [base] and carries a non-empty
    refresh token, and each navigation goes to the login page. *)
Theorem effects_are_well_formed (base : string) (ls : gmap string string)
        (evs : list event) :
  Forall (effect_ok base) (trace (run (initial base ls) evs)).
Proof.
  destruct (run_delta evs (initial base ls)) as (_ & H & _).
  - apply Inv_initial.
  - constructor.
  - constructor.
  - exact H.
Qed.

(** X9.  In every run, the request of a handler that waits for the exchange
    is marked retried; so is its replay after a successful exchange, and
    whatever that replay comes back with, and in whatever world, the error
    handler hands the error on without queueing it or refreshing for it. *)
Theorem triggering_request_is_refreshed_for_once (base : string)
        (ls : gmap string string) (evs : list event) (originalRequest : request_config) :
  let w := run (initial base ls) evs in
  List.In originalRequest (awaiting w) ->
  _retry originalRequest = true
  /\ forall token resp sent_flag w',
      let error := mkAxiosError (retry_of w token originalRequest) resp sent_flag in
      _retry (retry_of w token originalRequest) = true
      /\ onRejected error w' = (w', Normal (Rejects (AxiosError error))).
Proof.
  intros w Hin.
  destruct (run_delta evs (initial base ls)) as (_ & _ & Hmark);
    [apply Inv_initial | constructor | constructor |].
  fold w in Hmark. rewrite Forall_forall in Hmark.
  assert (Hm : _retry originalRequest = true).
  { apply Hmark. now apply list_elem_of_In. }
  split; [exact Hm|]. intros token resp sent_flag w' error.
  assert (Hm' : _retry (retry_of w token originalRequest) = true).
  { unfold retry_of.
    destruct (sent_as_frame_fields (refreshed token w)
                (set_header "Authorization" ("Bearer " +:+ ToString token) originalRequest))
      as (_ & _ & _ & Hr).
    rewrite Hr. exact Hm. }
  split; [exact Hm'|]. apply onRejected_pass.
  unfold should_refresh, error. simpl. rewrite Hm'. simpl. now rewrite andb_false_r.
Qed.

(** ** The calls of the module and the trigger condition *)

Lemma string_app_assoc (a b c : string) : (a +:+ b) +:+ c = a +:+ (b +:+ c).
Proof.
  induction a as [|x a IH]; [reflexivity|].
  change (String x ((a +:+ b) +:+ c) = String x (a +:+ (b +:+ c))). now rewrite IH.
Qed.

Lemma string_app_nonempty (a : string) (c : ascii) : a +:+ String c EmptyString <> EmptyString.
Proof. destruct a; discriminate. Qed.

Lemma string_snoc_inj (a b : string) (c : ascii) :
  a +:+ String c EmptyString = b +:+ String c EmptyString -> a = b.
Proof.
  revert b. induction a as [|x a IH]; intros [|y b] H.
  - reflexivity.
  - change (String c EmptyString = String y (b +:+ String c EmptyString)) in H.
    inversion H as [[Hc Hrest]]. symmetry in Hrest.
    now apply string_app_nonempty in Hrest.
  - change (String x (a +:+ String c EmptyString) = String c EmptyString) in H.
    inversion H as [[Hc Hrest]]. now apply string_app_nonempty in Hrest.
  - change (String x (a +:+ String c EmptyString) = String y (b +:+ String c EmptyString)) in H.
    inversion H as [[Hxy Hrest]]. f_equal. now apply IH.
Qed.

Lemma last_char_some (s : string) : s <> EmptyString -> exists c, last_char s = Some c.
Proof.
  destruct s as [|x s]; [congruence|]. intros _. simpl.
  destruct (last_char s); eauto.
Qed.

Lemma last_char_app (a b : string) :
  b <> EmptyString -> last_char (a +:+ b) = last_char b.
Proof.
  intros Hb. induction a as [|x a IH]; [reflexivity|].
  change (last_char (String x (a +:+ b)) = last_char b). simpl. rewrite IH.
  destruct (last_char_some b Hb) as [c ->]. reflexivity.
Qed.

Lemma last_char_uint (d : Decimal.uint) :
  match last_char (NilEmpty.string_of_uint d) with
  | Some c => is_digit c = true
  | None => d = Decimal.Nil
  end.
Proof.
  induction d as [|d IH|d IH|d IH|d IH|d IH|d IH|d IH|d IH|d IH|d IH]; simpl;
    try reflexivity;
    destruct (last_char (NilEmpty.string_of_uint d)); try exact IH; reflexivity.
Qed.

Lemma last_char_string_of_Z (n : Z) :
  exists c, last_char (string_of_Z n) = Some c /\ is_digit c = true.
Proof.
  unfold string_of_Z.
  assert (Hu : forall d, exists c, last_char (NilZero.string_of_uint d) = Some c
                                   /\ is_digit c = true).
  { intros d. pose proof (last_char_uint d) as H.
    destruct d; simpl in *; try (eexists; split; reflexivity);
      match goal with
      | |- context [last_char (NilEmpty.string_of_uint ?u)] =>
          destruct (last_char (NilEmpty.string_of_uint u)) as [c|];
          eexists; split; try reflexivity; try exact H; reflexivity
      end. }
  destruct (Z.to_int n) as [d|d]; simpl.
  - apply Hu.
  - destruct (Hu d) as [c [Hc Hd]]. rewrite Hc. eauto.
Qed.

Lemma numbered_url_is_not_the_refresh_endpoint (n : Z) :
  endsWith ("/api/solo/assigned-routines/" +:+ string_of_Z n +:+ "/")
           REFRESH_TOKEN_ENDPOINT = false.
Proof.
  destruct (endsWith _ _) eqn:He; [|reflexivity]. exfalso.
  apply endsWith_spec in He as [p Hp].
  change REFRESH_TOKEN_ENDPOINT with ("/api/token/refresh" +:+ "/") in Hp.
  rewrite <- !string_app_assoc in Hp. apply string_snoc_inj in Hp.
  apply (f_equal last_char) in Hp.
  destruct (last_char_string_of_Z n) as [c [Hc Hd]].
  rewrite last_char_app in Hp.
  - rewrite last_char_app in Hp by discriminate. rewrite Hc in Hp.
    inversion Hp; subst c. discriminate.
  - intros Hempty. rewrite Hempty in Hc. discriminate.
Qed.

(** X11.  No call of the module is exempt from the refresh flow: a 401
    answer to the login call, to the list of assigned routines, to the
    details of a routine with an integer id, to the posting of a session log
    or to the list of logged sessions meets the trigger condition, as each
    of them is sent. *)
Theorem every_call_can_trigger_a_refresh (w : world) (resp : http_response)
        (sent_flag : bool) (username password sessionData : json) (routineId : Z) :
  status resp = 401%Z ->
  let fails c := should_refresh (mkAxiosError (sent_as w c) (Some resp) sent_flag) in
  fails (loginUser_request username password) = true
  /\ fails getAssignedRoutines_request = true
  /\ fails (getRoutineDetails_request (Some (JNum (string_of_Z routineId)))) = true
  /\ fails (logSession_request sessionData) = true
  /\ fails getLoggedSessions_request = true.
Proof.
  intros Hs fails.
  assert (H : forall c, _retry c = false ->
                        endsWith (url c) REFRESH_TOKEN_ENDPOINT = false ->
                        fails c = true).
  { intros c Hr Hu. unfold fails, should_refresh, status_is_401. simpl.
    destruct (sent_as_frame_fields w c) as (Hurl & _ & _ & Hretry).
    rewrite Hurl, Hretry, Hr, Hu, Hs. reflexivity. }
  repeat split; apply H; try reflexivity.
  apply numbered_url_is_not_the_refresh_endpoint.
Qed.

Lemma queue_stays_unmarked (w : world) (ev : event) :
  Inv w ->
  Forall (fun p => should_refresh (e401 (prom_request p)) = true) (failedQueue w) ->
  Forall (fun p => should_refresh (e401 (prom_request p)) = true)
         (failedQueue (step w ev)).
Proof.
  intros HI Hall. pose proof (inv_jobs w HI) as Hj.
  destruct ev as [[error|msg|m d s]|i x|key v];
    try (rewrite step_without_config by (try assumption; discriminate); exact Hall).
  - rewrite step_error_eq by assumption.
    destruct (should_refresh error) eqn:Hs.
    + destruct (isRefreshing w) eqn:Hr.
      * rewrite (onRejected_queue error w Hs Hr). simpl.
        apply Forall_app. split; [exact Hall|]. constructor; [|constructor].
        simpl. unfold should_refresh in *. simpl.
        apply andb_true_iff in Hs as [Hs Hu]. apply andb_true_iff in Hs as [_ Hm].
        now rewrite Hm, Hu.
      * destruct (truthy_item (localStorage w !! "refreshToken")) eqn:Ht.
        -- destruct (localStorage w !! "refreshToken") as [tok|] eqn:Hl; [|discriminate].
           assert (Hne : tok <> EmptyString) by (intros ->; discriminate).
           now rewrite (onRejected_refresh error w tok Hs Hr Hl Hne).
        -- now rewrite (onRejected_logout error w Hs Hr Ht).
    + now rewrite (onRejected_pass error w Hs).
  - destruct (awaiting w !! i) as [r|] eqn:Hl.
    + destruct (step_settled_summary w i r x HI Hl) as (_ & Hq & _).
      rewrite Hq. constructor.
    + unfold step. simpl. now rewrite Hl.
  - now destruct v.
Qed.

Lemma queue_unmarked_in_runs (evs : list event) (w : world) :
  Inv w ->
  Forall (fun p => should_refresh (e401 (prom_request p)) = true) (failedQueue w) ->
  Forall (fun p => should_refresh (e401 (prom_request p)) = true)
         (failedQueue (run w evs)).
Proof.
  revert w. induction evs as [|ev evs IH]; intros w HI Hall; [exact Hall|].
  change (run w (ev :: evs)) with (run (step w ev) evs).
  apply IH; [now apply Inv_step | now apply queue_stays_unmarked].
Qed.

(** X12.  In every run, a request that waits in the queue is not marked
    retried, and neither is its replay, whatever token it is replayed with:
    a 401 answer to the replay meets the trigger condition again. *)
Theorem queued_replay_can_trigger_again (base : string) (ls : gmap string string)
        (evs : list event) (p : prom) (w' : world) (token : value)
        (resp : http_response) (sent_flag : bool) :
  List.In p (failedQueue (run (initial base ls) evs)) ->
  status resp = 401%Z ->
  _retry (prom_request p) = false
  /\ _retry (replay_of w' token p) = false
  /\ should_refresh (mkAxiosError (replay_of w' token p) (Some resp) sent_flag) = true.
Proof.
  intros Hin Hs.
  assert (Hall : Forall (fun q => should_refresh (e401 (prom_request q)) = true)
                        (failedQueue (run (initial base ls) evs))).
  { apply queue_unmarked_in_runs; [apply Inv_initial | constructor]. }
  rewrite Forall_forall in Hall.
  assert (Hp : should_refresh (e401 (prom_request p)) = true)
    by (apply Hall; now apply list_elem_of_In).
  unfold should_refresh in Hp. simpl in Hp.
  apply andb_true_iff in Hp as [Hm Hu].
  apply negb_true_iff in Hm. apply negb_true_iff in Hu.
  destruct (sent_as_frame_fields w'
              (set_header "Authorization" ("Bearer " +:+ ToString token) (prom_request p)))
    as (Hurl & _ & _ & Hretry).
  simpl in Hurl, Hretry.
  split; [exact Hm|]. split; [unfold replay_of; now rewrite Hretry|].
  unfold should_refresh, status_is_401, replay_of. simpl.
  now rewrite Hurl, Hretry, Hm, Hu, Hs.
Qed.

(** ** What the caller of a session function sees *)

Lemma logSession_message (r : http_response) :
  ToString
    (or_else (opt_prop "detail" (Some (data r)))
       (or_else (if truthy (Some (data r)) && typeof_object (Some (data r))
                 then Some (JStr (JSON_stringify (data r)))
                 else Some JNull)
                (Some (JStr (api_error_text r)))))
  = if truthy (opt_prop "detail" (Some (data r))) then
      ToString (opt_prop "detail" (Some (data r)))
    else if is_object_or_array (data r) then JSON_stringify (data r)
    else api_error_text r.
Proof.
  unfold or_else at 1.
  destruct (truthy (opt_prop "detail" (Some (data r)))); [reflexivity|].
  destruct (data r) as [| b | n | s | items | fields]; simpl;
    try reflexivity; try (now destruct b);
    match goal with |- context [negb ?c] => now destruct c end.
Qed.



(** X15.  An answer whose body is not a JSON object or array (plain text, a
    number, a boolean, [null]) is reported by both session functions with the
    message [API Error: <status>], the body and the status; a body that is an
    array is reported that way by [getLoggedSessions] too. *)
Theorem plain_bodies_get_the_generic_message (error : thrown) (r : http_response) :
  response_of error = Some r ->
  (is_object_or_array (data r) = false ->
   logSession_catch error
   = Error ("API Error: " +:+ string_of_Z (status r)) (Some (data r)) (Some (status r))
   /\ getLoggedSessions_catch error
      = Error ("API Error: " +:+ string_of_Z (status r)) (Some (data r)) (Some (status r)))
  /\ (forall items, data r = JArr items ->
        getLoggedSessions_catch error
        = Error ("API Error: " +:+ string_of_Z (status r)) (Some (data r))
                (Some (status r))).
Proof.
  intros Hr. unfold logSession_catch, getLoggedSessions_catch. rewrite Hr. split.
  - intros Hplain. rewrite logSession_message.
    destruct (data r) as [| b | n | s | items | fields]; try discriminate; simpl;
      split; try reflexivity.
  - intros items ->. reflexivity.
Qed.

(** ** The further properties at concrete inputs *)




Lemma logged_out_stays_logged_out_witness :
  let w := run w_logged_in [ResponseError (AxiosError (e401 reqA))] in
  let w1 := fst (onRejected_resume (set_retry true reqA) (Failed refresh_rejected) w) in
  refresh_result (Failed refresh_rejected) = inl refresh_rejected
  /\ should_refresh (e401 reqB) = true
  /\ onRejected (e401 reqB) w1
     = (set_trace (trace w1 ++ [Navigate "/login"]) w1,
        Normal (Rejects (AxiosError (set_config (set_retry true (config (e401 reqB)))
                                                (e401 reqB))))).
Proof.
  assert (H1 : refresh_result (Failed refresh_rejected) = inl refresh_rejected)
    by reflexivity.
  assert (H2 : should_refresh (e401 reqB) = true) by (vm_compute; reflexivity).
  pose proof (logged_out_stays_logged_out
                (run w_logged_in [ResponseError (AxiosError (e401 reqA))])
                (set_retry true reqA) (Failed refresh_rejected) refresh_rejected
                (e401 reqB) H1 H2) as H.
  split; [exact H1|]. split; [exact H2|]. exact H.
Defined.

Lemma triggering_request_is_refreshed_for_once_witness :
  let w := run (initial "https://www.squashsync.com"
                  {["accessToken" := "T1"; "refreshToken" := "R1"]})
               [ResponseError (AxiosError (e401 reqA))] in
  List.In (set_retry true reqA) (awaiting w)
  /\ _retry (set_retry true reqA) = true.
Proof.
  assert (H1 : List.In (set_retry true reqA)
                 (awaiting
                    (run (initial "https://www.squashsync.com"
                            {["accessToken" := "T1"; "refreshToken" := "R1"]})
                         [ResponseError (AxiosError (e401 reqA))])))
    by (vm_compute; left; reflexivity).
  pose proof (triggering_request_is_refreshed_for_once "https://www.squashsync.com"
                {["accessToken" := "T1"; "refreshToken" := "R1"]}
                [ResponseError (AxiosError (e401 reqA))] (set_retry true reqA) H1) as (H & _).
  split; [exact H1 | exact H].
Defined.

Lemma every_call_can_trigger_a_refresh_witness :
  let resp := mkResponse 401 (JObj [("detail", JStr "No active account")]) in
  status resp = 401%Z
  /\ should_refresh
       (mkAxiosError
          (sent_as w_no_refresh (loginUser_request (JStr "ann") (JStr "wrong")))
          (Some resp) true) = true
  /\ should_refresh
       (mkAxiosError
          (sent_as w_no_refresh
                   (getRoutineDetails_request (Some (JNum (string_of_Z 12)))))
          (Some resp) true) = true.
Proof.
  assert (H1 : status (mkResponse 401 (JObj [("detail", JStr "No active account")]))
               = 401%Z) by reflexivity.
  pose proof (every_call_can_trigger_a_refresh w_no_refresh
                (mkResponse 401 (JObj [("detail", JStr "No active account")])) true
                (JStr "ann") (JStr "wrong") JNull 12 H1) as H.
  cbv zeta in H. destruct H as (Hlogin & _ & Hdetails & _).
  split; [exact H1|]. split; [exact Hlogin | exact Hdetails].
Defined.

Lemma queued_replay_can_trigger_again_witness :
  let w := run (initial "https://www.squashsync.com"
                  {["accessToken" := "T1"; "refreshToken" := "R1"]})
               [ResponseError (AxiosError (e401 reqA)); ResponseError (AxiosError (e401 reqB))] in
  let resp := mkResponse 401 JNull in
  List.In (mkProm 0 reqB) (failedQueue w)
  /\ status resp = 401%Z
  /\ should_refresh
       (mkAxiosError (replay_of w_logged_in (Some (JStr "T2")) (mkProm 0 reqB))
                     (Some resp) true) = true.
Proof.
  assert (H1 : List.In (mkProm 0 reqB)
                 (failedQueue
                    (run (initial "https://www.squashsync.com"
                            {["accessToken" := "T1"; "refreshToken" := "R1"]})
                         [ResponseError (AxiosError (e401 reqA)); ResponseError (AxiosError (e401 reqB))])))
    by (vm_compute; left; reflexivity).
  assert (H2 : status (mkResponse 401 JNull) = 401%Z) by reflexivity.
  pose proof (queued_replay_can_trigger_again "https://www.squashsync.com"
                {["accessToken" := "T1"; "refreshToken" := "R1"]}
                [ResponseError (AxiosError (e401 reqA)); ResponseError (AxiosError (e401 reqB))]
                (mkProm 0 reqB) w_logged_in (Some (JStr "T2")) (mkResponse 401 JNull) true
                H1 H2) as (_ & _ & H).
  split; [exact H1|]. split; [exact H2 | exact H].
Defined.



Lemma plain_bodies_get_the_generic_message_witness :
  let r := mkResponse 502 (JStr "Bad Gateway") in
  let error := AxiosError (mkAxiosError reqA (Some r) true) in
  response_of error = Some r
  /\ is_object_or_array (data r) = false
  /\ logSession_catch error
     = Error ("API Error: " +:+ string_of_Z (status r)) (Some (data r)) (Some (status r)).
Proof.
  assert (H1 : response_of
                 (AxiosError
                    (mkAxiosError reqA (Some (mkResponse 502 (JStr "Bad Gateway"))) true))
               = Some (mkResponse 502 (JStr "Bad Gateway"))) by reflexivity.
  assert (H2 : is_object_or_array (data (mkResponse 502 (JStr "Bad Gateway"))) = false)
    by reflexivity.
  pose proof (plain_bodies_get_the_generic_message _ _ H1) as (H & _).
  destruct (H H2) as (Hlog & _).
  split; [exact H1|]. split; [exact H2 | exact Hlog].
Defined.
